(** * Print-Notifications: the notification manager, the GitHub adapter
    and the printing loop

    A shallow embedding of [src/core/notification_service.py],
    [src/services/github_service.py] and [main.py].

    - Python exceptions are values of [Py.exn]; a call either returns or
      raises ([Py.outcome]).  [except Exception] catches what
      [Py.is_Exception] accepts: [KeyboardInterrupt], [SystemExit] and
      [GeneratorExit] derive from [BaseException] only and pass through.
    - The manager object is mutable and the providers talk to the outside
      world: every method is a computation over the pair (manager, world)
      in the monad [M] of [notification_service].
    - A string is a sequence of characters below U+0100, one per
      [ascii]; the provider names, ids and GitHub reason codes are ASCII
      text.  White space is what Python counts as such among these
      characters, U+0085 and U+00A0 included.  The case functions of [Py]
      act on the ASCII letters and leave every other character alone
      (Python's case mapping of other letters is not modelled).
    - JSON numbers are taken as integers.
    - [print] calls write to the console only and are left out. *)

From stdpp Require Import base gmap sets list strings pretty.
From Stdlib Require Import ZArith Ascii.

#[local] Set Warnings "-register-all,-clear-no-such-hyp".

(** ** Python values and string methods *)

Module Py.

(** The exception classes this program meets.  The first three derive from
    [BaseException] only, the others from [Exception]. *)
Inductive exn : Type :=
| KeyboardInterrupt
| SystemExit
| GeneratorExit
| AttributeError (msg : string)
| KeyError (key : string)
| TypeError (msg : string)
| ValueError (msg : string)
| RequestException (msg : string)
| OtherException (msg : string).

(** [isinstance(e, Exception)] *)
Definition is_Exception (e : exn) : bool :=
  match e with
  | KeyboardInterrupt | SystemExit | GeneratorExit => false
  | _ => true
  end.

(** [isinstance(e, requests.exceptions.RequestException)] *)
Definition is_RequestException (e : exn) : bool :=
  match e with
  | RequestException _ => true
  | _ => false
  end.

(** The result of a call: a value, or an exception on its way up. *)
Inductive outcome (A : Type) : Type :=
| Return (a : A)
| Raise (e : exn).
Arguments Return {A} a.
Arguments Raise {A} e.

(** A raise that [except Exception] stops (a plain return counts). *)
Definition caught {A} (r : outcome A) : bool :=
  match r with
  | Return _ => true
  | Raise e => is_Exception e
  end.

Definition isupper (c : ascii) : bool :=
  let n := nat_of_ascii c in (65 <=? n)%nat && (n <=? 90)%nat.

Definition islower (c : ascii) : bool :=
  let n := nat_of_ascii c in (97 <=? n)%nat && (n <=? 122)%nat.

Definition iscased (c : ascii) : bool := isupper c || islower c.

Definition lower_char (c : ascii) : ascii :=
  if isupper c then ascii_of_nat (nat_of_ascii c + 32) else c.

Definition upper_char (c : ascii) : ascii :=
  if islower c then ascii_of_nat (nat_of_ascii c - 32) else c.

(** [str.lower()] *)
Fixpoint lower (s : string) : string :=
  match s with
  | EmptyString => EmptyString
  | String c s' => String (lower_char c) (lower s')
  end.

(** [str.title()]: a cased character is upper-cased when the character
    before it is not cased (or there is none) and lower-cased otherwise;
    uncased characters, the underscore among them, are copied. *)
Fixpoint title_from (previous_is_cased : bool) (s : string) : string :=
  match s with
  | EmptyString => EmptyString
  | String c s' =>
      String (if previous_is_cased then lower_char c else upper_char c)
             (title_from (iscased c) s')
  end.

Definition title (s : string) : string := title_from false s.

(** [s.replace(old, new)] for a one-character [old]. *)
Fixpoint replace_char (old : ascii) (new : string) (s : string) : string :=
  match s with
  | EmptyString => EmptyString
  | String c s' =>
      if Ascii.eqb c old then new +:+ replace_char old new s'
      else String c (replace_char old new s')
  end.

(** White space as [str.strip()] and [str.split()] see it, among the
    characters below U+0100: the tab to the carriage return, the separators
    U+001C to U+001F, the space, the next line U+0085 and the no-break
    space U+00A0. *)
Definition isspace (c : ascii) : bool :=
  let n := nat_of_ascii c in
  ((9 <=? n)%nat && (n <=? 13)%nat) || ((28 <=? n)%nat && (n <=? 32)%nat)
  || (n =? 133)%nat || (n =? 160)%nat.

Fixpoint lstrip (s : string) : string :=
  match s with
  | EmptyString => EmptyString
  | String c s' => if isspace c then lstrip s' else s
  end.

Fixpoint rstrip (s : string) : string :=
  match s with
  | EmptyString => EmptyString
  | String c s' =>
      match rstrip s' with
      | EmptyString => if isspace c then EmptyString else String c EmptyString
      | r => String c r
      end
  end.

(** [str.strip()] *)
Definition strip (s : string) : string := rstrip (lstrip s).

(** What [response.json()] hands over: [None], booleans, integers, strings,
    lists and dictionaries (items in insertion order, keys unique). *)
Inductive json : Type :=
| JNull
| JBool (b : bool)
| JNum (z : Z)
| JStr (s : string)
| JArr (items : list json)
| JObj (fields : list (string * json)).

Fixpoint assoc (k : string) (d : list (string * json)) : option json :=
  match d with
  | [] => None
  | (k', v) :: d' => if String.eqb k k' then Some v else assoc k d'
  end.

(** [o.get(key, default)]: only a dictionary has the method. *)
Definition get (o : json) (key : string) (dflt : json) : outcome json :=
  match o with
  | JObj d => Return (default dflt (assoc key d))
  | _ => Raise (AttributeError "get")
  end.

(** [bool(o)] *)
Definition truthy (o : json) : bool :=
  match o with
  | JNull => false
  | JBool b => b
  | JNum z => negb (z =? 0)%Z
  | JStr s => negb (String.eqb s "")
  | JArr l => match l with [] => false | _ => true end
  | JObj d => match d with [] => false | _ => true end
  end.

Fixpoint chars (s : string) : list json :=
  match s with
  | EmptyString => []
  | String c s' => JStr (String c EmptyString) :: chars s'
  end.

(** [for x in o]: a list yields its items, a dictionary its keys, a string
    its characters; nothing else is iterable. *)
Definition iter (o : json) : outcome (list json) :=
  match o with
  | JArr l => Return l
  | JObj d => Return (map (λ kv, JStr (fst kv)) d)
  | JStr s => Return (chars s)
  | _ => Raise (TypeError "object is not iterable")
  end.

(** [datetime]: an instant, with or without a time zone. *)
Record datetime := { tz_aware : bool; epoch_us : Z }.

(** [str.upper()] *)
Fixpoint upper (s : string) : string :=
  match s with
  | EmptyString => EmptyString
  | String c s' => String (upper_char c) (upper s')
  end.

(** [s[:n]] *)
Fixpoint slice_to (n : nat) (s : string) : string :=
  match n, s with
  | S n', String c s' => String c (slice_to n' s')
  | _, _ => EmptyString
  end.

(** [s * n] *)
Fixpoint mul (s : string) (n : nat) : string :=
  match n with
  | O => EmptyString
  | S n' => s +:+ mul s n'
  end.

(** [bool(s)] for a string *)
Definition nonempty (s : string) : bool := negb (String.eqb s "").

(** [s.split()]: the maximal runs of characters that are not white space;
    [cur] is the run being read. *)
Fixpoint split_from (cur : string) (s : string) : list string :=
  match s with
  | EmptyString => if nonempty cur then [cur] else []
  | String c s' =>
      if isspace c then
        if nonempty cur then cur :: split_from EmptyString s'
        else split_from EmptyString s'
      else split_from (cur +:+ String c EmptyString) s'
  end.

Definition split (s : string) : list string := split_from EmptyString s.

(** [sep.join(words)] *)
Definition join (sep : string) (words : list string) : string :=
  String.concat sep words.

(** ["\n"] *)
Definition newline : string := String "010"%char EmptyString.

(** [str(n)] for a length or a count *)
Definition str_of_nat (n : nat) : string := pretty n.

End Py.

(** ** src/core/notification_service.py *)

Module notification_service.
Import Py.

(** The [Notification] dataclass.  Python does not check the annotations:
    [Obj] is the type of the values found in the slots annotated [str].
    The manager is modelled on [Notification string], the notifications of
    providers that respect the annotation (it puts the ids in sets, and an
    id of another type need not even be hashable); the GitHub adapter
    produces [Notification json], since it stores what the payload holds
    without looking at it. *)
Record Notification (Obj : Type) : Type := {
  id : Obj;
  title : Obj;
  source : string;
  type : string;
  timestamp : datetime;
  repository : option Obj;
  url : option Obj;
  reason : option string;
  raw_data : option json
}.
Arguments id {Obj} _.
Arguments title {Obj} _.
Arguments source {Obj} _.
Arguments type {Obj} _.
Arguments timestamp {Obj} _.
Arguments repository {Obj} _.
Arguments url {Obj} _.
Arguments reason {Obj} _.
Arguments raw_data {Obj} _.

(** The [NotificationService] interface.  A fetch reads and may change the
    outside world; it returns a list, [None], or raises. *)
Record NotificationService (World : Type) : Type := {
  service_name : string;
  is_configured : bool;
  get_notifications :
    World → outcome (option (list (Notification string))) * World
}.
Arguments service_name {World} _.
Arguments is_configured {World} _.
Arguments get_notifications {World} _ _.

(** The attributes of a [NotificationManager]: the registry, and the dict
    from provider name to the set of ids already seen. *)
Record NotificationManager (World : Type) : Type := {
  services : list (NotificationService World);
  seen_notifications : gmap string (gset string)
}.
Arguments services {World} _.
Arguments seen_notifications {World} _.

(** What a method can read and write: its manager and the world. *)
Record state (World : Type) : Type := {
  self : NotificationManager World;
  world : World
}.
Arguments self {World} _.
Arguments world {World} _.

(** A method body: it runs from a state and leaves one behind, with a value
    or with an exception.  Mutations made before a raise stay. *)
Definition M (World A : Type) : Type := state World → outcome A * state World.

Section methods.
Context {World : Type}.

#[local] Abbreviation notification := (Notification string).
#[local] Abbreviation service := (NotificationService World).
#[local] Abbreviation manager := (NotificationManager World).

#[export] Instance M_ret : MRet (M World) := λ A a σ, (Return a, σ).

#[export] Instance M_bind : MBind (M World) := λ A B k c σ,
  match c σ with
  | (Return a, σ') => k a σ'
  | (Raise e, σ') => (Raise e, σ')
  end.

(** [try: body / except Exception as e: handler e] *)
Definition try_except_Exception {A} (body : M World A) (handler : exn → M World A)
  : M World A := λ σ,
  match body σ with
  | (Raise e, σ') => if is_Exception e then handler e σ' else (Raise e, σ')
  | r => r
  end.

(** [for x in xs: body], with the local variable the body updates. *)
Fixpoint for_in {A B} (xs : list A) (body : A → B → M World B) (b : B)
  : M World B :=
  match xs with
  | [] => mret b
  | x :: xs' => b' ← body x b; for_in xs' body b'
  end.

(** [self.services] *)
Definition self_services : M World (list service) := λ σ,
  (Return (services (self σ)), σ).

(** [service.get_notifications()] *)
Definition call_get_notifications (s : service)
  : M World (option (list notification)) := λ σ,
  let '(r, w') := get_notifications s (world σ) in
  (r, {| self := self σ; world := w' |}).

(** [self.seen_notifications[name]]: the set object stored under [name],
    named by its key; [KeyError] when the key is missing. *)
Definition seen_getitem (name : string) : M World string := λ σ,
  match seen_notifications (self σ) !! name with
  | Some _ => (Return name, σ)
  | None => (Raise (KeyError name), σ)
  end.

(** [x in service_seen] *)
Definition set_contains (service_seen : string) (x : string) : M World bool := λ σ,
  (Return (bool_decide
             (x ∈ default ∅ (seen_notifications (self σ) !! service_seen))), σ).

(** [service_seen.add(x)]: the set is changed where it is stored. *)
Definition set_add (service_seen : string) (x : string) : M World unit := λ σ,
  (Return (),
   {| self := {| services := services (self σ);
                 seen_notifications :=
                   alter (λ s, s ∪ {[x]}) service_seen
                         (seen_notifications (self σ)) |};
      world := world σ |}).

(** [__init__] *)
Definition init : manager :=
  {| services := []; seen_notifications := ∅ |}.

Definition add_service (s : service) : M World unit := λ σ,
  if is_configured s then
    (Return (),
     {| self := {| services := services (self σ) ++ [s];
                   seen_notifications :=
                     <[service_name s := ∅]> (seen_notifications (self σ)) |};
        world := world σ |})
  else (Return (), σ).

(** The body of the loop of [get_all_notifications]. *)
Definition get_all_body (s : service) (all_notifications : list notification)
  : M World (list notification) :=
  try_except_Exception
    (notifications ← call_get_notifications s;
     match notifications with
     | Some (n :: ns) => mret (all_notifications ++ n :: ns)
     | _ => mret all_notifications
     end)
    (λ e, mret all_notifications).

Definition get_all_notifications : M World (list notification) :=
  svcs ← self_services;
  for_in svcs get_all_body [].

(** The inner loop of [get_new_notifications]. *)
Definition get_new_item (service_seen : string) (n : notification)
    (new_notifications : list notification) : M World (list notification) :=
  present ← set_contains service_seen (id n);
  if negb present then
    let new_notifications := new_notifications ++ [n] in
    _ ← set_add service_seen (id n);
    mret new_notifications
  else mret new_notifications.

(** The body of the outer loop of [get_new_notifications].  The fetch and
    the dict lookup are the only steps that can raise, and both come before
    the first change to [new_notifications]. *)
Definition get_new_body (s : service) (new_notifications : list notification)
  : M World (list notification) :=
  try_except_Exception
    (notifications ← call_get_notifications s;
     match notifications with
     | Some (n :: ns) =>
         service_seen ← seen_getitem (service_name s);
         for_in (n :: ns) (get_new_item service_seen) new_notifications
     | _ => mret new_notifications
     end)
    (λ e, mret new_notifications).

Definition get_new_notifications : M World (list notification) :=
  svcs ← self_services;
  for_in svcs get_new_body [].

(** One pass of the inner loop of [mark_notifications_as_seen] over
    [self.seen_notifications.items()]: every set whose key equals the
    notification's source gains the id. *)
Definition mark_one (n : notification) (_ : unit) : M World unit := λ σ,
  (Return (),
   {| self := {| services := services (self σ);
                 seen_notifications :=
                   map_imap (λ service_name seen_set,
                               Some (if decide (source n = service_name)
                                     then seen_set ∪ {[id n]}
                                     else seen_set))
                            (seen_notifications (self σ)) |};
      world := world σ |}).

Definition mark_notifications_as_seen (notifications : list notification)
  : M World unit :=
  for_in notifications mark_one ().

End methods.

(** *** Reading a poll

    Functions and predicates used to state what the loops compute; they
    are not part of the program. *)

Section reading.
Context {World : Type}.

#[local] Abbreviation notification := (Notification string).
#[local] Abbreviation service := (NotificationService World).

(** What the inner loop of [get_new_notifications] keeps of a batch, and the
    seen set it leaves, from the seen set it starts with. *)
Fixpoint unseen (items : list notification) (seen : gset string)
  : list notification * gset string :=
  match items with
  | [] => ([], seen)
  | n :: rest =>
      if bool_decide (id n ∈ seen) then unseen rest seen
      else let '(fresh, seen') := unseen rest (seen ∪ {[id n]}) in
           (n :: fresh, seen')
  end.

(** The fetches of one traversal of the registry that starts in world [w],
    each provider with what its fetch did. *)
Fixpoint polled (svcs : list service) (w : World)
  : list (service * outcome (option (list notification))) :=
  match svcs with
  | [] => []
  | s :: rest =>
      let '(r, w') := get_notifications s w in (s, r) :: polled rest w'
  end.

(** The world such a traversal leaves. *)
Fixpoint world_after (svcs : list service) (w : World) : World :=
  match svcs with
  | [] => w
  | s :: rest => world_after rest (snd (get_notifications s w))
  end.

(** The items of a fetch that returned a list, none otherwise. *)
Definition batch (r : outcome (option (list notification))) : list notification :=
  match r with
  | Return (Some items) => items
  | _ => []
  end.

(** The state [σ] after the outside world moved to [w]. *)
Definition set_world (σ : state World) (w : World) : state World :=
  {| self := self σ; world := w |}.

(** The manager [m] with another seen dict. *)
Definition set_seen (m : NotificationManager World)
    (seen : gmap string (gset string)) : NotificationManager World :=
  {| services := services m; seen_notifications := seen |}.

(** What a batch fetched by the provider called [name] adds to the result of
    [get_new_notifications], and the seen dict afterwards. *)
Definition seen_step (name : string) (items : list notification)
    (seen : gmap string (gset string))
  : list notification * gmap string (gset string) :=
  match seen !! name with
  | Some s0 => (fst (unseen items s0), <[name := snd (unseen items s0)]> seen)
  | None => ([], seen)
  end.

(** The same for all the fetches of a traversal, in order. *)
Fixpoint collect_new (trace : list (service * outcome (option (list notification))))
    (seen : gmap string (gset string))
  : list notification * gmap string (gset string) :=
  match trace with
  | [] => ([], seen)
  | (s, r) :: rest =>
      let st := seen_step (service_name s) (batch r) seen in
      let st' := collect_new rest (snd st) in
      (fst st ++ fst st', snd st')
  end.

(** The managers a program can build: a fresh one, then any method called
    in any world. *)
Inductive reachable : NotificationManager World → Prop :=
| reachable_init : reachable init
| reachable_add_service s σ :
    reachable (self σ) → reachable (self (snd (add_service s σ)))
| reachable_get_all σ :
    reachable (self σ) → reachable (self (snd (get_all_notifications σ)))
| reachable_get_new σ :
    reachable (self σ) → reachable (self (snd (get_new_notifications σ)))
| reachable_mark ns σ :
    reachable (self σ) → reachable (self (snd (mark_notifications_as_seen ns σ))).

(** Every id of the batch is in the set stored under the provider's name,
    when there is one. *)
Definition all_seen (seen : gmap string (gset string))
    (p : service * outcome (option (list notification))) : Prop :=
  ∀ n, n ∈ batch p.2 →
  ∀ a : gset string, seen !! service_name p.1 = Some a → id n ∈ a.

(** The provider put its own name in the [source] of what it fetched. *)
Definition own_source (p : service * outcome (option (list notification)))
  : Prop :=
  Forall (λ n, source n = service_name p.1) (batch p.2).

(** Same keys, and under each key a set that contains the old one. *)
Definition grows (seen seen' : gmap string (gset string)) : Prop :=
  ∀ k, option_Forall2 (⊆) (seen !! k) (seen' !! k).

(** No seen set of [m] has lost an id in [m']. *)
Definition seen_le (m m' : NotificationManager World) : Prop :=
  ∀ name s, seen_notifications m !! name = Some s →
    ∃ s', seen_notifications m' !! name = Some s' ∧ s ⊆ s'.

(** The items fetched in a traversal by the providers called [name]. *)
Definition batches_under (name : string)
    (trace : list (service * outcome (option (list notification))))
  : list notification :=
  concat ((λ p, if decide (service_name p.1 = name) then batch p.2 else [])
            <$> trace).

(** The notifications of a list whose source is [name]. *)
Definition from_source (name : string) (ns : list notification)
  : list notification :=
  filter (λ n, source n = name) ns.

End reading.

End notification_service.

(** ** src/services/github_service.py *)

Module github_service.
Import Py notification_service.

#[export] Instance outcome_ret : MRet outcome := λ A a, Return a.

#[export] Instance outcome_bind : MBind outcome := λ A B k c,
  match c with
  | Return a => k a
  | Raise e => Raise e
  end.

(** [self.token], read from the environment when the object is built. *)
Record GitHubNotificationService : Type := { token : option string }.

Definition service_name (self : GitHubNotificationService) : string := "GitHub".

Definition is_configured (self : GitHubNotificationService) : bool :=
  match token self with
  | Some t => negb (String.eqb (strip t) "")
  | None => false
  end.

Definition type_mapping : gmap string string :=
  list_to_map
    [ ("assign", "Assignment");
      ("author", "Author");
      ("comment", "Comment");
      ("invitation", "Invitation");
      ("manual", "Manual");
      ("mention", "Mention");
      ("review_requested", "Review Request");
      ("security_alert", "Security Alert");
      ("state_change", "State Change");
      ("subscribed", "Subscription");
      ("team_mention", "Team Mention") ].

(** [type_mapping.get(reason.lower(), reason.title())] *)
Definition _get_notification_type (reason : string) : string :=
  default (Py.title reason) (type_mapping !! lower reason).

(** The receiver of a call [o.lower()]: only a string has the method. *)
Definition str_method (o : json) (method : string) : outcome string :=
  match o with
  | JStr s => Return s
  | _ => Raise (AttributeError method)
  end.

(** A JSON [null] is Python's [None]. *)
Definition optional (v : json) : option json :=
  match v with
  | JNull => None
  | _ => Some v
  end.

Section adapter.
Context {World : Type}.

(** [requests.get(...)], [raise_for_status()] and [response.json()]: the
    decoded payload, or the exception one of the three raised. *)
Variable requests_get_json : World → outcome json * World.

(** [datetime.fromisoformat] *)
Variable fromisoformat : string → outcome datetime.

(** [datetime.now()] *)
Variable now : World → datetime.

(** The [try] block of [_convert_github_notification]. *)
Definition convert_body (self : GitHubNotificationService) (w : World)
    (raw_notification : json) : outcome (Notification json) :=
  notification_id ← get raw_notification "id" JNull;
  subject ← get raw_notification "subject" (JObj []);
  title ← get subject "title" (JStr "No Title");
  repository ← get raw_notification "repository" (JObj []);
  repo_name ← get repository "full_name" (JStr "Unknown Repo");
  reason ← get raw_notification "reason" (JStr "unknown");
  updated_at ← get raw_notification "updated_at" (JStr "");
  subject' ← get raw_notification "subject" (JObj []);
  url ← get subject' "url" JNull;
  let timestamp :=
    if truthy updated_at then
      match updated_at with
      | JStr s =>
          match fromisoformat (replace_char "Z" "+00:00" s) with
          | Return t => t
          | Raise _ => now w
          end
      | _ => now w
      end
    else now w in
  reason ← str_method reason "lower";
  let notification_type := _get_notification_type reason in
  mret {| id := notification_id;
          title := title;
          source := service_name self;
          type := notification_type;
          timestamp := timestamp;
          repository := optional repo_name;
          url := optional url;
          reason := Some reason;
          raw_data := Some raw_notification |}.

Definition _convert_github_notification (self : GitHubNotificationService)
    (w : World) (raw_notification : json)
  : outcome (option (Notification json)) :=
  match convert_body self w raw_notification with
  | Return n => Return (Some n)
  | Raise e => if is_Exception e then Return None else Raise e
  end.

(** The loop of [get_notifications]; a [Notification] object is truthy. *)
Fixpoint convert_all (self : GitHubNotificationService) (w : World)
    (raw_notifications : list json) (notifications : list (Notification json))
  : outcome (list (Notification json)) :=
  match raw_notifications with
  | [] => Return notifications
  | raw :: rest =>
      notification ← _convert_github_notification self w raw;
      match notification with
      | Some n => convert_all self w rest (notifications ++ [n])
      | None => convert_all self w rest notifications
      end
  end.

Definition get_notifications (self : GitHubNotificationService) (w : World)
  : outcome (option (list (Notification json))) * World :=
  if negb (is_configured self) then (Return None, w)
  else
    let '(response, w') := requests_get_json w in
    match (raw_notifications ← response;
           items ← iter raw_notifications;
           convert_all self w' items []) with
    | Return notifications => (Return (Some notifications), w')
    | Raise e =>
        if is_RequestException e then (Return None, w') else (Raise e, w')
    end.

(** The notifications of the raw items whose conversion returns, in order:
    used to state what [get_notifications] returns. *)
Definition converted (self : GitHubNotificationService) (w : World)
    (raw_notifications : list json) : list (Notification json) :=
  omap (λ raw, match convert_body self w raw with
               | Return n => Some n
               | Raise _ => None
               end) raw_notifications.

End adapter.

(** A value [get] accepts as the receiver of a second [get]: a missing key
    (the default [{}] is used) or a dictionary. *)
Definition dict_or_absent (o : option json) : bool :=
  match o with
  | None | Some (JObj _) => true
  | _ => false
  end.

(** The raw items [_convert_github_notification] turns into a
    notification: dictionaries whose [subject] and [repository], when
    present, are dictionaries and whose [reason], when present, is a
    string. *)
Definition convertible (raw : json) : bool :=
  match raw with
  | JObj d =>
      dict_or_absent (assoc "subject" d)
      && dict_or_absent (assoc "repository" d)
      && match assoc "reason" d with
         | None | Some (JStr _) => true
         | _ => false
         end
  | _ => false
  end.

(** The dictionary under [key], the default [{}] when the key is missing. *)
Definition sub_dict (key : string) (d : list (string * json))
  : list (string * json) :=
  match assoc key d with
  | Some (JObj d') => d'
  | _ => []
  end.

End github_service.

(** ** main.py *)

Module main.
Import Py notification_service.

Abbreviation notification := (Notification string).

(** The calls made on the printer, in order.  [NetumPrinter] is not part
    of the files at hand: a call is recorded and taken to return. *)
Inductive printer_call : Type :=
| enter
| print_line (text : string)
| print_text (text : string)
| feed_lines (n : nat)
| exit.

Section printing.

(** [d.strftime(format)] *)
Variable strftime : datetime → string → string.

(** The loop that wraps the title: the lines closed so far and the line
    being filled. *)
Fixpoint wrap_loop (words : list string) (title_lines : list string)
    (current_line : string) : list string * string :=
  match words with
  | [] => (title_lines, current_line)
  | word :: rest =>
      if (String.length (current_line +:+ " " +:+ word) <=? 32)%nat then
        wrap_loop rest title_lines
          (current_line +:+ (if nonempty current_line then " " +:+ word
                             else word))
      else
        wrap_loop rest
          (if nonempty current_line then title_lines ++ [current_line]
           else title_lines)
          word
  end.

(** [title_lines] at the end of [format_notification_for_print]. *)
Definition wrap_title (title : string) : list string :=
  let '(title_lines, current_line) := wrap_loop (split title) [] "" in
  if nonempty current_line then title_lines ++ [current_line]
  else title_lines.

(** [output] at the end of [format_notification_for_print]. *)
Definition format_lines (n : notification) : list string :=
  let formatted_time := strftime (timestamp n) "%Y-%m-%d %H:%M" in
  [mul "=" 32]
  ++ [slice_to 32 ("SERVICE: " +:+ source n)]
  ++ match repository n with
     | Some repo => if nonempty repo then [slice_to 32 ("REPO: " +:+ repo)]
                    else []
     | None => []
     end
  ++ [slice_to 32 ("TYPE: " +:+ type n)]
  ++ match reason n with
     | Some r => if nonempty r then [slice_to 32 ("REASON: " +:+ upper r)]
                 else []
     | None => []
     end
  ++ [slice_to 32 ("TIME: " +:+ formatted_time)]
  ++ [mul "-" 32]
  ++ wrap_title (title n)
  ++ [mul "=" 32]
  ++ [""].

Definition format_notification_for_print (n : notification) : string :=
  join newline (format_lines n).

(** [services[source].append(n)] on the dict [services], kept as the list
    of its items in insertion order. *)
Fixpoint dict_append (k : string) (n : notification)
    (services : list (string * list notification))
  : list (string * list notification) :=
  match services with
  | [] => []
  | (k', v) :: rest =>
      if String.eqb k k' then (k', v ++ [n]) :: rest
      else (k', v) :: dict_append k n rest
  end.

(** [k in services] *)
Definition dict_contains (k : string)
    (services : list (string * list notification)) : bool :=
  existsb (λ kv, String.eqb k kv.1) services.

(** One pass of the grouping loop of [print_notifications_to_printer]. *)
Definition group_step (services : list (string * list notification))
    (n : notification) : list (string * list notification) :=
  let services :=
    if dict_contains (source n) services then services
    else services ++ [(source n, [])] in
  dict_append (source n) n services.

(** [services] after the grouping loop. *)
Definition group_by_source (notifications : list notification)
  : list (string * list notification) :=
  fold_left group_step notifications [].

(** The calls that print one group. *)
Definition print_group (kv : string * list notification) : list printer_call :=
  [print_line ("--- " +:+ upper kv.1 +:+ " ---");
   print_line ("Count: " +:+ str_of_nat (length kv.2));
   print_line ""]
  ++ ((λ n, print_text (format_notification_for_print n)) <$> kv.2).

(** [print_notifications_to_printer]: what it returns and the calls it
    makes, given whether the printer connects and what [datetime.now()]
    reads. *)
Definition print_notifications_to_printer (is_connected : bool)
    (now : datetime) (notifications : list notification)
  : bool * list printer_call :=
  match notifications with
  | [] => (true, [])
  | _ =>
      if negb is_connected then (false, [enter; exit])
      else
        let services := group_by_source notifications in
        (true,
         [enter]
         ++ [print_line (mul "=" 32);
             print_line "NOTIFICATIONS";
             print_line (mul "=" 32);
             print_line ("Total: " +:+ str_of_nat (length notifications));
             print_line ("Services: " +:+ join ", " (fst <$> services));
             print_line ("Time: " +:+ strftime now "%Y-%m-%d %H:%M");
             print_line ""]
         ++ concat (print_group <$> services)
         ++ [print_line (mul "=" 32);
             print_line "END OF NOTIFICATIONS";
             print_line (mul "=" 32);
             feed_lines 3]
         ++ [exit])
  end.

End printing.

Section polling.
Context {World : Type}.

(** [print_notifications_to_printer(new_notifications)] as the loop sees
    it: something done to the world that returns a boolean or raises,
    whatever the printer does. *)
Variable deliver : list notification → World → outcome bool * World.

(** [time.sleep(60)] *)
Variable time_sleep : World → outcome unit * World.

(** A call that reads and changes the world and not the manager. *)
Definition in_world {A} (f : World → outcome A * World) : M World A := λ σ,
  let '(r, w') := f (world σ) in
  (r, {| self := self σ; world := w' |}).

(** The initial check of [poll_notifications]. *)
Definition initial_check : M World unit :=
  initial_notifications ← get_all_notifications;
  match initial_notifications with
  | _ :: _ => mark_notifications_as_seen initial_notifications
  | [] => mret ()
  end.

(** One pass through the [while True] loop of [poll_notifications]; the
    value is [new_notifications]. *)
Definition poll_cycle : M World (list notification) :=
  new_notifications ← get_new_notifications;
  _ ← match new_notifications with
      | _ :: _ => _ ← in_world (deliver new_notifications); mret ()
      | [] => mret ()
      end;
  _ ← in_world time_sleep;
  mret new_notifications.

(** The first [n] passes through the loop, with the lists they found, as
    long as nothing raises. *)
Fixpoint poll_cycles (n : nat) : M World (list (list notification)) :=
  match n with
  | O => mret []
  | S k =>
      new_notifications ← poll_cycle;
      rest ← poll_cycles k;
      mret (new_notifications :: rest)
  end.

(** The [while True] loop, run for at most [fuel] passes: [None] while it
    is still running, the exception that ended it otherwise.  The loop has
    no [break] and no [return]. *)
Fixpoint poll_loop (fuel : nat) (σ : state World)
  : option (exn * state World) :=
  match fuel with
  | O => None
  | S k =>
      match poll_cycle σ with
      | (Return _, σ') => poll_loop k σ'
      | (Raise e, σ') => Some (e, σ')
      end
  end.

(** [poll_notifications], from the manager that
    [setup_notification_manager] returned: the early return when no
    provider is registered, the initial check, and the loop inside
    [try: ... except KeyboardInterrupt:]. *)
Definition poll_notifications (fuel : nat) (σ : state World)
  : option (outcome unit * state World) :=
  match services (self σ) with
  | [] => Some (Return (), σ)
  | _ :: _ =>
      match initial_check σ with
      | (Raise e, σ1) => Some (Raise e, σ1)
      | (Return _, σ1) =>
          match poll_loop fuel σ1 with
          | None => None
          | Some (e, σ2) =>
              Some (match e with
                    | KeyboardInterrupt => Return ()
                    | _ => Raise e
                    end, σ2)
          end
      end
  end.

End polling.

(** The order in which the values of a list first appear. *)
Fixpoint first_seen (l : list string) : list string :=
  match l with
  | [] => []
  | x :: rest => x :: filter (λ y, y ≠ x) (first_seen rest)
  end.

(** The texts handed to [print_text], in order. *)
Definition printed_texts (calls : list printer_call) : list string :=
  omap (λ c, match c with print_text t => Some t | _ => None end) calls.

End main.

(** ** Concrete providers and states, used to run the model *)

Module examples.
Import Py notification_service.

Definition note (src i : string) : Notification string :=
  {| id := i; title := "t"; source := src; type := "Comment";
     timestamp := {| tz_aware := false; epoch_us := 0 |};
     repository := None; url := None; reason := None; raw_data := None |}.

(** The world counts the fetches made so far. *)
Definition steady (name : string) (items : list (Notification string))
  : NotificationService nat :=
  {| service_name := name; is_configured := true;
     get_notifications := λ w, (Return (Some items), S w) |}.

Definition silent (name : string) : NotificationService nat :=
  {| service_name := name; is_configured := true;
     get_notifications := λ w, (Return None, S w) |}.

Definition failing (name : string) (e : exn) : NotificationService nat :=
  {| service_name := name; is_configured := true;
     get_notifications := λ w, (Raise e, S w) |}.

Definition fresh_state : state nat := {| self := init; world := 0 |}.

Definition renote (src i : string) : Notification string :=
  {| id := i; title := "again"; source := src; type := "Mention";
     timestamp := {| tz_aware := false; epoch_us := 60 |};
     repository := None; url := None; reason := None; raw_data := None |}.

(** Two providers with one item each; two whose only items share the id
    "1"; one whose batch holds the id "1" twice. *)
Definition X : NotificationService nat := steady "X" [note "X" "1"].
Definition Y : NotificationService nat := steady "Y" [note "Y" "2"].
Definition X1 : NotificationService nat := steady "X" [note "X" "1"].
Definition Y1 : NotificationService nat := steady "Y" [note "Y" "1"].
Definition D : NotificationService nat :=
  steady "D" [note "D" "1"; renote "D" "1"; note "D" "2"].

(** The state after the given providers were registered in order. *)
Definition registered (svcs : list (NotificationService nat)) : state nat :=
  snd (for_in svcs (λ s _, add_service s) () fresh_state).

(** The state in which the loop of [get_new_notifications] reaches the
    second of the three providers [X], [second], [Y]. *)
Definition at_second (second : NotificationService nat) : state nat :=
  snd (get_new_body X [] (registered [X; second; Y])).

(** A GitHub payload: two well-formed items around a string, and an item
    whose [subject] is [null]. *)
Definition raw_item (i reason_ : string) : json :=
  JObj [("id", JStr i);
        ("subject", JObj [("title", JStr "Fix the build"); ("url", JNull)]);
        ("repository", JObj [("full_name", JStr "octo/cat")]);
        ("reason", JStr reason_);
        ("updated_at", JStr "2024-05-01T10:00:00Z")].

Definition no_subject : json :=
  JObj [("id", JStr "7"); ("subject", JNull); ("reason", JStr "mention")].

Definition answer (payload : json) : nat → outcome json * nat :=
  λ w, (Return payload, S w).

Definition refused : nat → outcome json * nat :=
  λ w, (Raise (RequestException "401 Unauthorized"), S w).

Definition no_parse : string → outcome datetime :=
  λ _, Raise (ValueError "Invalid isoformat string").

Definition clock : nat → datetime :=
  λ w, {| tz_aware := false; epoch_us := Z.of_nat w |}.

Definition with_token : github_service.GitHubNotificationService :=
  {| github_service.token := Some "ghp_0123" |}.

(** A token made of a blank and a tab. *)
Definition blank_token : github_service.GitHubNotificationService :=
  {| github_service.token := Some (String " " (String "009" "")) |}.

(** A token made of a no-break space and a next-line character. *)
Definition nbsp_token : github_service.GitHubNotificationService :=
  {| github_service.token := Some (String "160" (String "133" "")) |}.


(** A provider whose upstream grows: items 1 and 2 for the first two
    fetches, then items 1, 2 and 3. *)
Definition growing : NotificationService nat :=
  {| service_name := "G"; is_configured := true;
     get_notifications := λ w,
       (Return (Some (if (w <? 2)%nat then [note "G" "1"; note "G" "2"]
                      else [note "G" "1"; note "G" "2"; note "G" "3"])),
        S w) |}.

(** A provider that is interrupted from its third fetch on. *)
Definition interrupted : NotificationService nat :=
  {| service_name := "I"; is_configured := true;
     get_notifications := λ w,
       (if (w <? 2)%nat then Return (Some [note "I" "1"])
        else Raise KeyboardInterrupt, S w) |}.






(** A printer that always fails, a sleep that only passes time, a clock
    text. *)
Definition broken_printer : list (Notification string) → nat → outcome bool * nat :=
  λ _ w, (Return false, w).

Definition a_minute : nat → outcome unit * nat := λ w, (Return (), w).

Definition show_time : datetime → string → string :=
  λ _ _, "2024-05-01 10:00".

Definition titled (src i t : string) : Notification string :=
  {| id := i; title := t; source := src; type := "Comment";
     timestamp := {| tz_aware := false; epoch_us := 0 |};
     repository := Some "octo/cat"; url := None; reason := Some "mention";
     raw_data := None |}.

End examples.

(** * Properties of the notification manager *)

Section manager_facts.
Import Py notification_service.
Context {World : Type}.

#[local] Abbreviation notification := (Notification string).
#[local] Abbreviation service := (NotificationService World).
#[local] Abbreviation manager := (NotificationManager World).
#[local] Abbreviation seen_dict := (gmap string (gset string)).
#[local] Abbreviation fetched := (outcome (option (list notification))).

Implicit Types (σ : state World) (s : service) (m : manager)
  (acc items : list notification) (seen : seen_dict) (r : fetched).

(** *** The monad *)

Lemma bind_Return {A B} (c : M World A) (k : A → M World B) σ a σ' :
  c σ = (Return a, σ') → (c ≫= k) σ = k a σ'.
Proof. intros Hc. unfold mbind, M_bind. by rewrite Hc. Qed.

Lemma bind_Raise {A B} (c : M World A) (k : A → M World B) σ e σ' :
  c σ = (Raise e, σ') → (c ≫= k) σ = (Raise e, σ').
Proof. intros Hc. unfold mbind, M_bind. by rewrite Hc. Qed.

Lemma for_in_cons {A B} (x : A) xs (body : A → B → M World B) b σ :
  for_in (x :: xs) body b σ =
  match body x b σ with
  | (Return b', σ') => for_in xs body b' σ'
  | (Raise e, σ') => (Raise e, σ')
  end.
Proof. reflexivity. Qed.

Lemma for_in_app {A B} (xs ys : list A) (body : A → B → M World B) b σ :
  for_in (xs ++ ys) body b σ =
  match for_in xs body b σ with
  | (Return b', σ') => for_in ys body b' σ'
  | (Raise e, σ') => (Raise e, σ')
  end.
Proof.
  revert b σ. induction xs as [|x xs IH]; intros b σ; [done|].
  rewrite <- app_comm_cons, !for_in_cons.
  destruct (body x b σ) as [[b'|e] σ']; [apply IH | done].
Qed.

Lemma get_all_notifications_unfold σ :
  get_all_notifications σ = for_in (services (self σ)) get_all_body [] σ.
Proof. reflexivity. Qed.

Lemma get_new_notifications_unfold σ :
  get_new_notifications σ = for_in (services (self σ)) get_new_body [] σ.
Proof. reflexivity. Qed.

(** *** One iteration of [get_all_notifications] *)

Lemma get_all_body_eq s acc σ :
  get_all_body s acc σ =
  let '(r, w') := get_notifications s (world σ) in
  match r with
  | Return _ => (Return (acc ++ batch r), set_world σ w')
  | Raise e =>
      if is_Exception e then (Return acc, set_world σ w')
      else (Raise e, set_world σ w')
  end.
Proof.
  unfold get_all_body, try_except_Exception, mbind, M_bind,
    call_get_notifications, mret, M_ret, set_world.
  destruct (get_notifications s (world σ)) as [[[[|n ns]|]|e] w']; simpl;
    rewrite ?app_nil_r; done.
Qed.

(** *** The inner loop of [get_new_notifications] *)

Lemma unseen_cons_seen n items (seen : gset string) :
  id n ∈ seen → unseen (n :: items) seen = unseen items seen.
Proof. intros Hin. simpl. by rewrite bool_decide_eq_true_2. Qed.

Lemma unseen_cons_new n items (seen : gset string) :
  id n ∉ seen →
  unseen (n :: items) seen =
  (n :: fst (unseen items (seen ∪ {[id n]})),
   snd (unseen items (seen ∪ {[id n]}))).
Proof.
  intros Hin. simpl. rewrite bool_decide_eq_false_2 by done.
  by destruct (unseen items (seen ∪ {[id n]})).
Qed.

Lemma get_new_items_eq name items acc σ (s0 : gset string) :
  seen_notifications (self σ) !! name = Some s0 →
  for_in items (get_new_item name) acc σ =
  (Return (acc ++ fst (unseen items s0)),
   {| self := set_seen (self σ)
                (<[name := snd (unseen items s0)]> (seen_notifications (self σ)));
      world := world σ |}).
Proof.
  revert acc σ s0. induction items as [|n items IH]; intros acc σ s0 Hs0.
  - simpl. unfold mret, M_ret, set_seen. rewrite app_nil_r, insert_id by done.
    by destruct σ as [[??]?].
  - destruct (decide (id n ∈ s0)) as [Hin|Hin].
    + rewrite unseen_cons_seen by done. rewrite for_in_cons.
      unfold get_new_item at 1.
      unfold mbind, M_bind, set_contains, set_add, mret, M_ret. rewrite Hs0.
      cbn [default negb]. rewrite bool_decide_eq_true_2 by done.
      cbn [negb]. by apply IH.
    + rewrite unseen_cons_new by done. rewrite for_in_cons.
      unfold get_new_item at 1.
      unfold mbind, M_bind, set_contains, set_add, mret, M_ret. rewrite Hs0.
      cbn [default negb]. rewrite bool_decide_eq_false_2 by done.
      cbn [negb]. rewrite (IH _ _ (s0 ∪ {[id n]})).
      2:{ cbn [self seen_notifications]. by rewrite lookup_alter_eq, Hs0. }
      cbn [fst snd self world seen_notifications services set_seen].
      rewrite <- app_assoc. cbn [app]. unfold set_seen. cbn [services].
      do 3 f_equal.
      rewrite <- (insert_id _ _ _ Hs0) at 1.
      by rewrite alter_insert_eq, insert_insert_eq.
Qed.

Lemma seen_step_nil name seen : seen_step name [] seen = ([], seen).
Proof.
  unfold seen_step. destruct (seen !! name) as [s0|] eqn:Hs0; [|done].
  simpl. by rewrite insert_id.
Qed.

Lemma set_seen_id m : set_seen m (seen_notifications m) = m.
Proof. by destruct m. Qed.

(** *** One iteration of [get_new_notifications] *)

Lemma get_new_body_eq s acc σ :
  get_new_body s acc σ =
  let '(r, w') := get_notifications s (world σ) in
  match r with
  | Return _ =>
      let st := seen_step (service_name s) (batch r)
                  (seen_notifications (self σ)) in
      (Return (acc ++ fst st),
       {| self := set_seen (self σ) (snd st); world := w' |})
  | Raise e =>
      if is_Exception e then (Return acc, set_world σ w')
      else (Raise e, set_world σ w')
  end.
Proof.
  unfold get_new_body, try_except_Exception.
  unfold mbind at 1. unfold M_bind at 1. unfold call_get_notifications.
  destruct (get_notifications s (world σ)) as [[[[|n ns]|]|e] w'];
    cbn [batch].
  - rewrite seen_step_nil. cbn. by rewrite app_nil_r, set_seen_id.
  - unfold seen_step.
    destruct (seen_notifications (self σ) !! service_name s) as [s0|] eqn:Hs0.
    + rewrite (bind_Return _ _ _ (service_name s)
                 {| self := self σ; world := w' |}).
      2:{ unfold seen_getitem. cbn [self]. by rewrite Hs0. }
      by rewrite (get_new_items_eq _ _ _ _ s0).
    + rewrite (bind_Raise _ _ _ (KeyError (service_name s))
                 {| self := self σ; world := w' |}).
      2:{ unfold seen_getitem. cbn [self]. by rewrite Hs0. }
      cbn. by rewrite app_nil_r, set_seen_id.
  - rewrite seen_step_nil. cbn. by rewrite app_nil_r, set_seen_id.
  - reflexivity.
Qed.

(** *** The loops, for a poll in which every raise is caught *)

Lemma polled_app (xs ys : list service) (w : World) :
  polled (xs ++ ys) w = polled xs w ++ polled ys (world_after xs w).
Proof.
  revert w. induction xs as [|x xs IH]; intros w; [done|].
  cbn. destruct (get_notifications x w) as [r w']. cbn. by rewrite IH.
Qed.

Lemma world_after_app (xs ys : list service) (w : World) :
  world_after (xs ++ ys) w = world_after ys (world_after xs w).
Proof. revert w. induction xs as [|x xs IH]; intros w; [done|]. cbn. apply IH. Qed.

Lemma polled_services (svcs : list service) (w : World) :
  fst <$> polled svcs w = svcs.
Proof.
  revert w. induction svcs as [|x xs IH]; intros w; [done|].
  cbn. destruct (get_notifications x w) as [r w']. cbn. by rewrite IH.
Qed.

Lemma get_all_loop_eq (svcs : list service) acc σ :
  Forall (λ p, caught p.2 = true) (polled svcs (world σ)) →
  for_in svcs get_all_body acc σ =
  (Return (acc ++ concat ((λ p, batch p.2) <$> polled svcs (world σ))),
   set_world σ (world_after svcs (world σ))).
Proof.
  revert acc σ. induction svcs as [|s svcs IH]; intros acc σ Hc.
  - cbn. unfold mret, M_ret, set_world. rewrite app_nil_r. by destruct σ.
  - rewrite for_in_cons, get_all_body_eq. cbn in Hc |- *.
    destruct (get_notifications s (world σ)) as [r w'].
    apply Forall_cons in Hc as [Hr Hc]. cbn in Hr.
    destruct r as [o|e].
    + rewrite IH by done. cbn. by rewrite app_assoc.
    + cbn in Hr. rewrite Hr. rewrite IH by done. done.
Qed.

Lemma get_new_loop_eq (svcs : list service) acc σ :
  Forall (λ p, caught p.2 = true) (polled svcs (world σ)) →
  for_in svcs get_new_body acc σ =
  let st := collect_new (polled svcs (world σ)) (seen_notifications (self σ)) in
  (Return (acc ++ fst st),
   {| self := set_seen (self σ) (snd st);
      world := world_after svcs (world σ) |}).
Proof.
  revert acc σ. induction svcs as [|s svcs IH]; intros acc σ Hc.
  - cbn. unfold mret, M_ret. rewrite app_nil_r, set_seen_id. by destruct σ.
  - rewrite for_in_cons, get_new_body_eq. cbn in Hc |- *.
    destruct (get_notifications s (world σ)) as [r w'].
    apply Forall_cons in Hc as [Hr Hc]. cbn in Hr.
    destruct r as [o|e].
    + rewrite IH by done. cbn. by rewrite app_assoc.
    + cbn in Hr. rewrite Hr. rewrite IH by done. cbn.
      by rewrite seen_step_nil.
Qed.

(** *** What the inner loop keeps *)

Lemma unseen_seen items (s0 : gset string) :
  (∀ n, n ∈ items → id n ∈ s0) → unseen items s0 = ([], s0).
Proof.
  induction items as [|n items IH]; intros Hall; [done|].
  rewrite unseen_cons_seen by (apply Hall; left).
  apply IH. intros n' Hn'. apply Hall. by right.
Qed.

Lemma unseen_snd items (s0 : gset string) :
  snd (unseen items s0) = s0 ∪ list_to_set (id <$> items).
Proof.
  revert s0. induction items as [|n items IH]; intros s0.
  - cbn. set_solver.
  - destruct (decide (id n ∈ s0)) as [Hin|Hin].
    + rewrite unseen_cons_seen, IH by done. set_solver.
    + rewrite unseen_cons_new by done. cbn [snd]. rewrite IH. set_solver.
Qed.

Lemma unseen_first items (s0 : gset string) n :
  n ∈ fst (unseen items s0) →
  (id n ∉ s0) ∧ (∃ pre post, items = pre ++ n :: post ∧ id n ∉ id <$> pre).
Proof.
  revert s0. induction items as [|x items IH]; intros s0.
  - cbn. by intros ?%elem_of_nil.
  - destruct (decide (id x ∈ s0)) as [Hin|Hin].
    + rewrite unseen_cons_seen by done. intros Hn.
      destruct (IH _ Hn) as (Hs0 & pre & post & -> & Hpre).
      split; [done|]. exists (x :: pre), post. split; [done|].
      rewrite fmap_cons, not_elem_of_cons. split; [|done].
      intros Heq. apply Hs0. by rewrite Heq.
    + rewrite unseen_cons_new by done. cbn [fst].
      intros [->|Hn]%elem_of_cons.
      * split; [done|]. exists [], items. split; [done|]. apply not_elem_of_nil.
      * destruct (IH _ Hn) as (Hs0 & pre & post & -> & Hpre).
        split; [set_solver|]. exists (x :: pre), post. split; [done|].
        rewrite fmap_cons, not_elem_of_cons. split; [|done]. set_solver.
Qed.

Lemma unseen_keeps_first pre n post (s0 : gset string) :
  id n ∉ s0 → id n ∉ id <$> pre → n ∈ fst (unseen (pre ++ n :: post) s0).
Proof.
  revert s0. induction pre as [|x pre IH]; intros s0 Hs0 Hpre.
  - cbn [app]. rewrite unseen_cons_new by done. cbn. left.
  - rewrite fmap_cons, not_elem_of_cons in Hpre. destruct Hpre as [Hx Hpre].
    rewrite <- app_comm_cons.
    destruct (decide (id x ∈ s0)) as [Hin|Hin].
    + rewrite unseen_cons_seen by done. by apply IH.
    + rewrite unseen_cons_new by done. cbn [fst]. right.
      apply IH; [set_solver|done].
Qed.


Lemma unseen_sublist items (s0 : gset string) :
  sublist (fst (unseen items s0)) items.
Proof.
  revert s0. induction items as [|x items IH]; intros s0.
  - cbn. constructor.
  - destruct (decide (id x ∈ s0)) as [Hin|Hin].
    + rewrite unseen_cons_seen by done. by apply sublist_cons.
    + rewrite unseen_cons_new by done. cbn [fst]. by apply sublist_skip.
Qed.

(** *** The seen dict only grows during a poll *)

Lemma grows_refl seen : grows seen seen.
Proof. intros k. destruct (seen !! k); by constructor. Qed.

Lemma grows_trans seen1 seen2 seen3 :
  grows seen1 seen2 → grows seen2 seen3 → grows seen1 seen3.
Proof.
  intros H12 H23 k. specialize (H12 k). specialize (H23 k).
  destruct H12; inversion H23; subst; constructor. set_solver.
Qed.

Lemma grows_lookup seen seen' k (a : gset string) :
  grows seen seen' → seen !! k = Some a →
  ∃ b : gset string, seen' !! k = Some b ∧ a ⊆ b.
Proof.
  intros Hg Hk. specialize (Hg k). rewrite Hk in Hg. inversion Hg; subst. eauto.
Qed.

Lemma grows_lookup_inv seen seen' k (b : gset string) :
  grows seen seen' → seen' !! k = Some b →
  ∃ a : gset string, seen !! k = Some a ∧ a ⊆ b.
Proof.
  intros Hg Hk. specialize (Hg k). rewrite Hk in Hg. inversion Hg; subst. eauto.
Qed.

Lemma seen_step_lookup name items seen (s0 : gset string) :
  seen !! name = Some s0 →
  snd (seen_step name items seen) !! name
  = Some (s0 ∪ list_to_set (id <$> items)).
Proof.
  intros Hs0. unfold seen_step. rewrite Hs0. cbn [snd].
  by rewrite lookup_insert_eq, unseen_snd.
Qed.

Lemma seen_step_frame name items seen k :
  k ≠ name → snd (seen_step name items seen) !! k = seen !! k.
Proof.
  intros Hk. unfold seen_step. destruct (seen !! name); [|done].
  cbn [snd]. by rewrite lookup_insert_ne.
Qed.

Lemma seen_step_grows name items seen :
  grows seen (snd (seen_step name items seen)).
Proof.
  intros k. destruct (decide (k = name)) as [->|Hk].
  - destruct (seen !! name) as [s0|] eqn:Hs0.
    + rewrite (seen_step_lookup _ _ _ s0) by done. constructor. set_solver.
    + unfold seen_step. rewrite Hs0. cbn. rewrite Hs0. constructor.
  - rewrite seen_step_frame by done. apply grows_refl.
Qed.

Lemma collect_new_grows (trace : list (service * fetched)) seen :
  grows seen (snd (collect_new trace seen)).
Proof.
  revert seen. induction trace as [|[s r] trace IH]; intros seen.
  - apply grows_refl.
  - cbn. eapply grows_trans; [apply seen_step_grows | apply IH].
Qed.

Lemma collect_new_frame (trace : list (service * fetched)) seen k :
  k ∉ service_name <$> (fst <$> trace) →
  snd (collect_new trace seen) !! k = seen !! k.
Proof.
  revert seen. induction trace as [|[s r] trace IH]; intros seen Hk; [done|].
  cbn in Hk |- *. rewrite not_elem_of_cons in Hk. destruct Hk as [Hs Hk].
  rewrite IH by done. by apply seen_step_frame.
Qed.

(** *** What every method keeps *)

Lemma for_in_invariant {A B} (P : state World → Prop) (xs : list A)
    (body : A → B → M World B) b σ :
  (∀ x b σ, P σ → P (snd (body x b σ))) → P σ → P (snd (for_in xs body b σ)).
Proof.
  intros Hbody. revert b σ. induction xs as [|x xs IH]; intros b σ HP; [done|].
  rewrite for_in_cons. specialize (Hbody x b σ HP).
  destruct (body x b σ) as [[b'|e] σ']; [by apply IH | done].
Qed.

Lemma get_all_body_self s acc σ : self (snd (get_all_body s acc σ)) = self σ.
Proof.
  rewrite get_all_body_eq.
  destruct (get_notifications s (world σ)) as [[o|e] w']; [done|].
  by destruct (is_Exception e).
Qed.

Lemma get_all_loop_self (svcs : list service) acc σ :
  self (snd (for_in svcs get_all_body acc σ)) = self σ.
Proof.
  apply (for_in_invariant (λ σ', self σ' = self σ)); [|done].
  intros x b σ' <-. apply get_all_body_self.
Qed.

Lemma get_new_body_keeps s acc σ :
  services (self (snd (get_new_body s acc σ))) = services (self σ) ∧
  grows (seen_notifications (self σ))
        (seen_notifications (self (snd (get_new_body s acc σ)))).
Proof.
  rewrite get_new_body_eq.
  destruct (get_notifications s (world σ)) as [[o|e] w'].
  - cbn. split; [done|]. apply seen_step_grows.
  - destruct (is_Exception e); cbn; (split; [done|apply grows_refl]).
Qed.

Lemma get_new_loop_keeps (svcs : list service) acc σ :
  services (self (snd (for_in svcs get_new_body acc σ))) = services (self σ) ∧
  grows (seen_notifications (self σ))
        (seen_notifications (self (snd (for_in svcs get_new_body acc σ)))).
Proof.
  apply (for_in_invariant (λ σ', services (self σ') = services (self σ) ∧
           grows (seen_notifications (self σ)) (seen_notifications (self σ')))).
  - intros x b σ' [Hs Hg]. destruct (get_new_body_keeps x b σ') as [Hs' Hg'].
    split; [congruence|]. by eapply grows_trans.
  - split; [done|apply grows_refl].
Qed.

Lemma mark_one_lookup n σ k :
  seen_notifications (self (snd (mark_one n () σ))) !! k =
  (λ seen_set, if decide (source n = k) then seen_set ∪ {[id n]} else seen_set)
    <$> seen_notifications (self σ) !! k.
Proof.
  cbn. rewrite map_lookup_imap.
  by destruct (seen_notifications (self σ) !! k).
Qed.

Lemma mark_one_keeps n u σ :
  services (self (snd (mark_one n u σ))) = services (self σ) ∧
  grows (seen_notifications (self σ))
        (seen_notifications (self (snd (mark_one n u σ)))).
Proof.
  destruct u. split; [done|]. intros k. rewrite mark_one_lookup.
  destruct (seen_notifications (self σ) !! k) as [a|]; constructor.
  case_decide; set_solver.
Qed.

Lemma mark_keeps (ns : list notification) σ :
  services (self (snd (mark_notifications_as_seen ns σ))) = services (self σ) ∧
  grows (seen_notifications (self σ))
        (seen_notifications (self (snd (mark_notifications_as_seen ns σ)))).
Proof.
  apply (for_in_invariant (λ σ', services (self σ') = services (self σ) ∧
           grows (seen_notifications (self σ)) (seen_notifications (self σ')))).
  - intros x b σ' [Hs Hg]. destruct (mark_one_keeps x b σ') as [Hs' Hg'].
    split; [congruence|]. by eapply grows_trans.
  - split; [done|apply grows_refl].
Qed.

Lemma mark_returns (ns : list notification) σ :
  fst (mark_notifications_as_seen ns σ) = Return ().
Proof.
  unfold mark_notifications_as_seen. revert σ.
  induction ns as [|n ns IH]; intros σ; [done|].
  rewrite for_in_cons. cbn. apply IH.
Qed.

Lemma grows_seen_le m m' :
  grows (seen_notifications m) (seen_notifications m') → seen_le m m'.
Proof. intros Hg name a Ha. by eapply grows_lookup. Qed.

(** The keys of the seen dict are the names of the registered providers. *)
Lemma reachable_keys m :
  reachable m →
  ∀ k, is_Some (seen_notifications m !! k) ↔ k ∈ service_name <$> services m.
Proof.
  induction 1 as [|s σ _ IH|σ _ IH|σ _ IH|ns σ _ IH]; intros k.
  - cbn. rewrite lookup_empty, elem_of_nil. split; [by intros [? ?]|done].
  - unfold add_service. destruct (is_configured s); [|apply IH]. cbn.
    rewrite fmap_app, elem_of_app, <- IH. cbn.
    rewrite list_elem_of_singleton.
    destruct (decide (k = service_name s)) as [->|Hk].
    + rewrite lookup_insert_eq. split; [by right|by eexists].
    + rewrite lookup_insert_ne by done. split; [by left|by intros [?|?]].
  - rewrite get_all_notifications_unfold, get_all_loop_self. apply IH.
  - rewrite get_new_notifications_unfold.
    destruct (get_new_loop_keeps (services (self σ)) [] σ) as [-> Hg].
    rewrite <- IH. specialize (Hg k).
    split; intros [a Ha]; rewrite Ha in Hg; inversion Hg; by eexists.
  - destruct (mark_keeps ns σ) as [-> Hg].
    rewrite <- IH. specialize (Hg k).
    split; intros [a Ha]; rewrite Ha in Hg; inversion Hg; by eexists.
Qed.

Lemma loop_skip {B} (body : service → B → M World B)
    (before after : list service) s b0 σ b σ1 σ2 :
  for_in before body b0 σ = (Return b, σ1) →
  body s b σ1 = (Return b, σ2) →
  for_in (before ++ s :: after) body b0 σ = for_in after body b σ2.
Proof. intros H1 H2. by rewrite for_in_app, H1, for_in_cons, H2. Qed.

Lemma get_all_around (before after : list service) s σ r w2 :
  services (self σ) = before ++ s :: after →
  get_notifications s (world_after before (world σ)) = (r, w2) →
  caught r = true → batch r = [] →
  Forall (λ p, caught p.2 = true) (polled before (world σ)) →
  Forall (λ p, caught p.2 = true) (polled after w2) →
  fst (get_all_notifications σ)
  = Return (concat ((λ p, batch p.2) <$> polled before (world σ))
            ++ concat ((λ p, batch p.2) <$> polled after w2)).
Proof.
  intros Hsvcs Hfetch Hr Hbatch Hbefore Hafter.
  assert (Htrace : polled (before ++ s :: after) (world σ)
                   = polled before (world σ) ++ (s, r) :: polled after w2).
  { rewrite polled_app. cbn. by rewrite Hfetch. }
  rewrite get_all_notifications_unfold, Hsvcs, get_all_loop_eq.
  - rewrite Htrace, fmap_app, concat_app. cbn. by rewrite Hbatch.
  - rewrite Htrace. apply Forall_app. split; [done|]. by constructor.
Qed.

(** *** Claims about the two fetching methods *)

(** C6: whatever the state of the manager and whatever the providers do
    (return items, return [None], raise, even raise past the method),
    [get_all_notifications] leaves [seen_notifications] as it found it. *)
Theorem get_all_notifications_leaves_seen σ :
  seen_notifications (self (snd (get_all_notifications σ)))
  = seen_notifications (self σ).
Proof. by rewrite get_all_notifications_unfold, get_all_loop_self. Qed.

(** C8: a provider whose fetch returns [None] adds nothing: its iteration
    returns normally with the list and the manager unchanged, in both
    methods, and the call goes on with the providers after it from the list
    and the seen sets left by the providers before it.  When no other
    fetch raises past [except Exception], [get_all_notifications] returns
    the batches of the providers before it followed by the batches of the
    providers after it. *)
Theorem none_fetch_contributes_nothing s σ1 w2 :
  get_notifications s (world σ1) = (Return None, w2) →
  (∀ acc, get_all_body s acc σ1 = (Return acc, set_world σ1 w2) ∧
          get_new_body s acc σ1 = (Return acc, set_world σ1 w2)) ∧
  (∀ σ before after acc,
     services (self σ) = before ++ s :: after →
     (for_in before get_all_body [] σ = (Return acc, σ1) →
      get_all_notifications σ
      = for_in after get_all_body acc (set_world σ1 w2)) ∧
     (for_in before get_new_body [] σ = (Return acc, σ1) →
      get_new_notifications σ
      = for_in after get_new_body acc (set_world σ1 w2)) ∧
     (world σ1 = world_after before (world σ) →
      Forall (λ p, caught p.2 = true) (polled before (world σ)) →
      Forall (λ p, caught p.2 = true) (polled after w2) →
      fst (get_all_notifications σ)
      = Return (concat ((λ p, batch p.2) <$> polled before (world σ))
                ++ concat ((λ p, batch p.2) <$> polled after w2)))).
Proof.
  intros Hfetch.
  assert (Hbody : ∀ acc,
    get_all_body s acc σ1 = (Return acc, set_world σ1 w2) ∧
    get_new_body s acc σ1 = (Return acc, set_world σ1 w2)).
  { intros acc. rewrite get_all_body_eq, get_new_body_eq, Hfetch. cbn.
    rewrite seen_step_nil. cbn. by rewrite app_nil_r, set_seen_id. }
  split; [done|]. intros σ before after acc Hsvcs.
  split; [|split].
  - rewrite get_all_notifications_unfold, Hsvcs.
    intros Hbefore. eapply loop_skip; eauto. apply Hbody.
  - rewrite get_new_notifications_unfold, Hsvcs.
    intros Hbefore. eapply loop_skip; eauto. apply Hbody.
  - intros Hw Hbefore Hafter. rewrite Hw in Hfetch.
    by eapply get_all_around.
Qed.

(** C3, as amended.  A provider whose fetch raises an exception derived
    from [Exception] adds nothing and the exception stops there: its
    iteration returns normally with the list and the manager unchanged, in
    both methods, and the call goes on with the providers after it from the
    list and the seen sets left by the providers before it.  When no other
    fetch raises past [except Exception], [get_all_notifications] returns
    the batches of the providers before it followed by the batches of the
    providers after it.  A fetch that raises an exception which does not
    derive from [Exception] is not caught: its iteration raises it, and so
    does the call of either method that reached it, which returns no list
    and asks none of the providers after it. *)
Theorem raising_fetch_is_isolated s σ1 e w2 :
  get_notifications s (world σ1) = (Raise e, w2) →
  (is_Exception e = true →
   (∀ acc, get_all_body s acc σ1 = (Return acc, set_world σ1 w2) ∧
           get_new_body s acc σ1 = (Return acc, set_world σ1 w2)) ∧
   (∀ σ before after acc,
      services (self σ) = before ++ s :: after →
      (for_in before get_all_body [] σ = (Return acc, σ1) →
       get_all_notifications σ
       = for_in after get_all_body acc (set_world σ1 w2)) ∧
      (for_in before get_new_body [] σ = (Return acc, σ1) →
       get_new_notifications σ
       = for_in after get_new_body acc (set_world σ1 w2)) ∧
      (world σ1 = world_after before (world σ) →
       Forall (λ p, caught p.2 = true) (polled before (world σ)) →
       Forall (λ p, caught p.2 = true) (polled after w2) →
       fst (get_all_notifications σ)
       = Return (concat ((λ p, batch p.2) <$> polled before (world σ))
                 ++ concat ((λ p, batch p.2) <$> polled after w2))))) ∧
  (is_Exception e = false →
   (∀ acc, get_all_body s acc σ1 = (Raise e, set_world σ1 w2) ∧
           get_new_body s acc σ1 = (Raise e, set_world σ1 w2)) ∧
   (∀ σ before after acc,
      services (self σ) = before ++ s :: after →
      (for_in before get_all_body [] σ = (Return acc, σ1) →
       get_all_notifications σ = (Raise e, set_world σ1 w2)) ∧
      (for_in before get_new_body [] σ = (Return acc, σ1) →
       get_new_notifications σ = (Raise e, set_world σ1 w2)))).
Proof.
  intros Hfetch. split; intros He.
  - assert (Hbody : ∀ acc,
      get_all_body s acc σ1 = (Return acc, set_world σ1 w2) ∧
      get_new_body s acc σ1 = (Return acc, set_world σ1 w2)).
    { intros acc. by rewrite get_all_body_eq, get_new_body_eq, Hfetch, He. }
    split; [done|]. intros σ before after acc Hsvcs.
    split; [|split].
    + rewrite get_all_notifications_unfold, Hsvcs.
      intros Hbefore. eapply loop_skip; eauto. apply Hbody.
    + rewrite get_new_notifications_unfold, Hsvcs.
      intros Hbefore. eapply loop_skip; eauto. apply Hbody.
    + intros Hw Hbefore Hafter. rewrite Hw in Hfetch.
      by eapply get_all_around.
  - assert (Hbody : ∀ acc,
      get_all_body s acc σ1 = (Raise e, set_world σ1 w2) ∧
      get_new_body s acc σ1 = (Raise e, set_world σ1 w2)).
    { intros acc. by rewrite get_all_body_eq, get_new_body_eq, Hfetch, He. }
    split; [done|]. intros σ before after acc Hsvcs. split.
    + rewrite get_all_notifications_unfold, Hsvcs. intros Hbefore.
      rewrite for_in_app, Hbefore, for_in_cons.
      by destruct (Hbody acc) as [-> _].
    + rewrite get_new_notifications_unfold, Hsvcs. intros Hbefore.
      rewrite for_in_app, Hbefore, for_in_cons.
      by destruct (Hbody acc) as [_ ->].
Qed.

(** *** Ids already seen *)

Lemma get_all_loop_Return (svcs : list service) acc σ res σ' :
  for_in svcs get_all_body acc σ = (Return res, σ') →
  Forall (λ p, caught p.2 = true) (polled svcs (world σ)).
Proof.
  revert acc σ. induction svcs as [|s svcs IH]; intros acc σ; [by constructor|].
  rewrite for_in_cons, get_all_body_eq. cbn.
  destruct (get_notifications s (world σ)) as [[o|e] w'].
  - intros Hrest. constructor; [done|]. by apply IH in Hrest.
  - destruct (is_Exception e) eqn:He; [|done].
    intros Hrest. constructor; [done|]. by apply IH in Hrest.
Qed.

Lemma get_new_loop_Return (svcs : list service) acc σ res σ' :
  for_in svcs get_new_body acc σ = (Return res, σ') →
  Forall (λ p, caught p.2 = true) (polled svcs (world σ)).
Proof.
  revert acc σ. induction svcs as [|s svcs IH]; intros acc σ; [by constructor|].
  rewrite for_in_cons, get_new_body_eq. cbn.
  destruct (get_notifications s (world σ)) as [[o|e] w'].
  - intros Hrest. constructor; [done|]. by apply IH in Hrest.
  - destruct (is_Exception e) eqn:He; [|done].
    intros Hrest. constructor; [done|]. by apply IH in Hrest.
Qed.

Lemma elem_of_concat {A} (x : A) (l : list A) (ls : list (list A)) :
  x ∈ l → l ∈ ls → x ∈ concat ls.
Proof.
  intros Hx Hl. induction Hl as [|l' ls Hl IH]; cbn; set_solver.
Qed.

Lemma seen_step_seen name items seen :
  (∀ n, n ∈ items → ∀ a : gset string, seen !! name = Some a → id n ∈ a) →
  seen_step name items seen = ([], seen).
Proof.
  intros Hall. unfold seen_step.
  destruct (seen !! name) as [a|] eqn:Ha; [|done].
  rewrite unseen_seen by (intros n Hn; by eapply Hall).
  cbn. by rewrite insert_id.
Qed.

Lemma collect_new_seen (trace : list (service * fetched)) seen :
  Forall (all_seen seen) trace → collect_new trace seen = ([], seen).
Proof.
  induction 1 as [|[s r] trace Hp _ IH]; [done|].
  cbn. rewrite seen_step_seen by apply Hp. cbn. by rewrite IH.
Qed.

Lemma collect_new_covers (trace : list (service * fetched)) seen seen' :
  grows (snd (collect_new trace seen)) seen' → Forall (all_seen seen') trace.
Proof.
  revert seen. induction trace as [|[s r] trace IH]; intros seen Hg;
    [by constructor|].
  cbn in Hg. constructor; [|by eapply IH].
  intros n Hn b Hb. cbn in Hn, Hb.
  pose proof (grows_trans _ _ _
    (collect_new_grows trace (snd (seen_step (service_name s) (batch r) seen)))
    Hg) as Hg1.
  destruct (grows_lookup_inv _ _ _ _ Hg1 Hb) as (a1 & Ha1 & Hsub).
  destruct (grows_lookup_inv _ _ _ _ (seen_step_grows _ _ _) Ha1)
    as (a & Ha & _).
  rewrite (seen_step_lookup _ _ _ a) in Ha1 by done.
  injection Ha1 as <-. apply Hsub.
  apply elem_of_union_r, elem_of_list_to_set, list_elem_of_fmap. eauto.
Qed.

Lemma mark_covers (ns : list notification) σ n :
  n ∈ ns →
  ∀ a : gset string,
    seen_notifications (self (snd (mark_notifications_as_seen ns σ))) !! source n
    = Some a →
    id n ∈ a.
Proof.
  intros (pre & post & ->)%list_elem_of_split a.
  unfold mark_notifications_as_seen. rewrite for_in_app.
  pose proof (mark_returns pre σ) as Hret.
  unfold mark_notifications_as_seen in Hret.
  destruct (for_in pre mark_one () σ) as [[[]|e] σ1]; [|done].
  rewrite for_in_cons. cbn [mark_one].
  set (σ2 := snd (mark_one n () σ1)).
  change (seen_notifications (self (snd (for_in post mark_one () σ2)))
            !! source n = Some a → id n ∈ a).
  intros Ha. destruct (mark_keeps post σ2) as [_ Hg].
  destruct (grows_lookup_inv _ _ _ _ Hg Ha) as (a2 & Ha2 & Hsub).
  unfold σ2 in Ha2. rewrite mark_one_lookup in Ha2.
  destruct (seen_notifications (self σ1) !! source n) as [a1|]; [|done].
  cbn in Ha2. rewrite decide_True in Ha2 by done.
  injection Ha2 as <-. set_solver.
Qed.

(** C1: a provider all of whose fetched ids are already in its seen set
    adds nothing to the result of [get_new_notifications] (first part, for
    the provider's iteration).  So a second [get_new_notifications] over
    the same upstream items returns the empty list (second part), and so
    does a [get_new_notifications] that follows [get_all_notifications]
    and [mark_notifications_as_seen] of its result, for providers that put
    their own name in [source] (third part). *)
Theorem seen_ids_are_not_new :
  (∀ s σ items w' acc,
     get_notifications s (world σ) = (Return (Some items), w') →
     (∀ n, n ∈ items →
        ∃ a : gset string,
          seen_notifications (self σ) !! service_name s = Some a ∧ id n ∈ a) →
     get_new_body s acc σ = (Return acc, set_world σ w')) ∧
  (∀ σ res σ1,
     get_new_notifications σ = (Return res, σ1) →
     polled (services (self σ)) (world σ1)
     = polled (services (self σ)) (world σ) →
     get_new_notifications σ1
     = (Return [], set_world σ1 (world_after (services (self σ)) (world σ1)))) ∧
  (∀ σ res σ1 σ2,
     get_all_notifications σ = (Return res, σ1) →
     mark_notifications_as_seen res σ1 = (Return (), σ2) →
     Forall own_source (polled (services (self σ)) (world σ)) →
     polled (services (self σ)) (world σ2)
     = polled (services (self σ)) (world σ) →
     get_new_notifications σ2
     = (Return [], set_world σ2 (world_after (services (self σ)) (world σ2)))).
Proof.
  split; [|split].
  - intros s σ items w' acc Hfetch Hseen.
    rewrite get_new_body_eq, Hfetch. cbn.
    rewrite seen_step_seen.
    + cbn. by rewrite app_nil_r, set_seen_id.
    + intros n Hn a Ha. destruct (Hseen n Hn) as (a' & Ha' & Hin). congruence.
  - intros σ res σ1 Hfirst Hsame.
    rewrite get_new_notifications_unfold in Hfirst.
    pose proof (get_new_loop_Return _ _ _ _ _ Hfirst) as Hcaught.
    rewrite get_new_loop_eq in Hfirst by done. cbn in Hfirst.
    injection Hfirst as _ <-.
    rewrite get_new_notifications_unfold. cbn [self set_seen services].
    rewrite get_new_loop_eq by (cbn [world] in *; by rewrite Hsame).
    cbn [self set_seen services seen_notifications world] in *.
    rewrite Hsame, collect_new_seen
      by (eapply collect_new_covers, grows_refl).
    done.
  - intros σ res σ1 σ2 Hall Hmark Hsrc Hsame.
    rewrite get_all_notifications_unfold in Hall.
    pose proof (get_all_loop_Return _ _ _ _ _ Hall) as Hcaught.
    rewrite get_all_loop_eq in Hall by done. cbn in Hall.
    injection Hall as <- <-.
    destruct (mark_keeps (concat ((λ p, batch p.2) <$>
                polled (services (self σ)) (world σ)))
                (set_world σ (world_after (services (self σ)) (world σ))))
      as [Hsvcs _].
    rewrite Hmark in Hsvcs. cbn in Hsvcs.
    rewrite get_new_notifications_unfold, Hsvcs.
    rewrite get_new_loop_eq by (by rewrite Hsame).
    cbn zeta. rewrite Hsame, collect_new_seen.
    + cbn. rewrite set_seen_id. by destruct σ2.
    + apply Forall_forall. intros p Hp n Hn a Ha.
      rewrite Forall_forall in Hsrc. specialize (Hsrc p Hp).
      unfold own_source in Hsrc. rewrite Forall_forall in Hsrc.
      rewrite <- (Hsrc n Hn) in Ha.
      pose proof (mark_covers (concat ((λ p, batch p.2) <$>
                polled (services (self σ)) (world σ)))
                (set_world σ (world_after (services (self σ)) (world σ)))
                n) as Hcov.
      rewrite Hmark in Hcov. apply Hcov; [|done].
      apply (elem_of_concat _ (batch p.2)); [done|].
      apply list_elem_of_fmap. eauto.
Qed.

(** *** Duplicates within a batch and across providers *)

Lemma collect_new_app (t t' : list (service * fetched)) seen :
  collect_new (t ++ t') seen =
  (fst (collect_new t seen) ++ fst (collect_new t' (snd (collect_new t seen))),
   snd (collect_new t' (snd (collect_new t seen)))).
Proof.
  revert seen. induction t as [|[s r] t IH]; intros seen.
  - cbn. by destruct (collect_new t' seen).
  - cbn. rewrite IH. cbn. by rewrite app_assoc.
Qed.




Lemma concat_batches_app (t t' : list (service * fetched)) :
  concat ((λ p, batch p.2) <$> (t ++ t'))
  = concat ((λ p, batch p.2) <$> t) ++ concat ((λ p, batch p.2) <$> t').
Proof. by rewrite fmap_app, concat_app. Qed.

(** C2: two providers with different names whose batches hold the same id
    do not hide each other.  [get_all_notifications] returns both batches
    whole.  A [get_new_notifications] that finds the id in neither
    provider's seen set, as the first call after registration does, returns
    from each batch the first notification with that id, and records the id
    under each of the two names; the iteration of a provider touches no set
    but the one stored under its own name. *)
Theorem colliding_ids_are_kept_apart σ t1 X px nx qx t2 Y py ny qy t3 :
  polled (services (self σ)) (world σ)
  = t1 ++ (X, Return (Some (px ++ nx :: qx)))
       :: t2 ++ (Y, Return (Some (py ++ ny :: qy))) :: t3 →
  Forall (λ p, caught p.2 = true) (polled (services (self σ)) (world σ)) →
  service_name X ≠ service_name Y →
  id nx = id ny →
  (∃ a1 a2 a3 σ',
     get_all_notifications σ
     = (Return (a1 ++ (px ++ nx :: qx) ++ a2 ++ (py ++ ny :: qy) ++ a3), σ')) ∧
  (∀ sx sy : gset string,
     seen_notifications (self σ) !! service_name X = Some sx →
     seen_notifications (self σ) !! service_name Y = Some sy →
     id nx ∉ sx → id ny ∉ sy →
     id nx ∉ id <$> px → id ny ∉ id <$> py →
     service_name X ∉ service_name <$> (fst <$> t1) →
     service_name Y ∉ service_name <$> (fst <$> t1 ++ t2) →
     ∃ f1 fx f2 fy f3 σ' (sx' sy' : gset string),
       get_new_notifications σ
       = (Return (f1 ++ fx ++ f2 ++ fy ++ f3), σ') ∧
       nx ∈ fx ∧ sublist fx (px ++ nx :: qx) ∧
       ny ∈ fy ∧ sublist fy (py ++ ny :: qy) ∧
       seen_notifications (self σ') !! service_name X = Some sx' ∧
       id nx ∈ sx' ∧
       seen_notifications (self σ') !! service_name Y = Some sy' ∧
       id ny ∈ sy') ∧
  (∀ s acc σ0 k,
     k ≠ service_name s →
     seen_notifications (self (snd (get_new_body s acc σ0))) !! k
     = seen_notifications (self σ0) !! k).
Proof.
  intros Htrace Hcaught Hnames Hid. split; [|split].
  - rewrite get_all_notifications_unfold, get_all_loop_eq by done.
    rewrite Htrace, concat_batches_app. cbn [fmap list_fmap concat].
    rewrite concat_batches_app. cbn [fmap list_fmap concat snd batch].
    do 4 eexists. cbn. reflexivity.
  - intros sx sy Hsx Hsy Hnx Hny Hpx Hpy HX HY.
    rewrite fmap_app, fmap_app, not_elem_of_app in HY.
    destruct HY as [HY1 HY2].
    rewrite get_new_notifications_unfold, get_new_loop_eq by done.
    rewrite Htrace. cbn zeta.
    set (seen := seen_notifications (self σ)) in *.
    rewrite collect_new_app. cbn [collect_new fst snd batch].
    set (seen1 := snd (collect_new t1 seen)).
    assert (H1X : seen1 !! service_name X = Some sx)
      by (unfold seen1; by rewrite collect_new_frame).
    assert (H1Y : seen1 !! service_name Y = Some sy)
      by (unfold seen1; by rewrite collect_new_frame).
    set (stX := seen_step (service_name X) (px ++ nx :: qx) seen1).
    assert (HXX : snd stX !! service_name X
                  = Some (sx ∪ list_to_set (id <$> px ++ nx :: qx)))
      by (by apply seen_step_lookup).
    assert (HXY : snd stX !! service_name Y = Some sy)
      by (unfold stX; by rewrite seen_step_frame).
    rewrite collect_new_app. cbn [collect_new fst snd batch].
    set (seen2 := snd (collect_new t2 (snd stX))).
    assert (H2Y : seen2 !! service_name Y = Some sy)
      by (unfold seen2; by rewrite collect_new_frame).
    destruct (grows_lookup _ _ _ _ (collect_new_grows t2 (snd stX)) HXX)
      as (sx2 & H2X & Hsub2). fold seen2 in H2X.
    set (stY := seen_step (service_name Y) (py ++ ny :: qy) seen2).
    assert (HYY : snd stY !! service_name Y
                  = Some (sy ∪ list_to_set (id <$> py ++ ny :: qy)))
      by (by apply seen_step_lookup).
    assert (HYX : snd stY !! service_name X = Some sx2)
      by (unfold stY; by rewrite seen_step_frame).
    destruct (grows_lookup _ _ _ _ (collect_new_grows t3 (snd stY)) HYX)
      as (sx' & HfX & HsubX).
    destruct (grows_lookup _ _ _ _ (collect_new_grows t3 (snd stY)) HYY)
      as (sy' & HfY & HsubY).
    exists (fst (collect_new t1 seen)), (fst stX),
      (fst (collect_new t2 (snd stX))), (fst stY),
      (fst (collect_new t3 (snd stY))).
    eexists. exists sx', sy'.
    split; [cbn; reflexivity|].
    assert (HfstX : fst stX = fst (unseen (px ++ nx :: qx) sx))
      by (unfold stX, seen_step; by rewrite H1X).
    assert (HfstY : fst stY = fst (unseen (py ++ ny :: qy) sy))
      by (unfold stY, seen_step; by rewrite H2Y).
    rewrite HfstX, HfstY. cbn [self set_seen seen_notifications].
    repeat split.
    + by apply unseen_keeps_first.
    + apply unseen_sublist.
    + by apply unseen_keeps_first.
    + apply unseen_sublist.
    + done.
    + apply HsubX, Hsub2. rewrite fmap_app, fmap_cons. set_solver.
    + done.
    + apply HsubY. rewrite fmap_app, fmap_cons. set_solver.
  - intros s acc σ0 k Hk. rewrite get_new_body_eq.
    destruct (get_notifications s (world σ0)) as [[o|e] w'].
    + cbn. by apply seen_step_frame.
    + by destruct (is_Exception e).
Qed.

(** *** Claims about the seen dict *)

Lemma mark_one_unknown n σ :
  seen_notifications (self σ) !! source n = None →
  mark_one n () σ = (Return (), σ).
Proof.
  intros Hnone. unfold mark_one. f_equal.
  destruct σ as [[svcs seen] w]. cbn in *. do 2 f_equal.
  apply map_eq. intros k. rewrite map_lookup_imap.
  destruct (seen !! k) as [a|] eqn:Hk; [|done]. cbn.
  case_decide; [congruence|done].
Qed.

(** C10: in a manager built by the program, marking a notification whose
    source is the name of no registered provider returns normally and
    changes nothing, alone or in the middle of a list. *)
Theorem mark_unknown_source_ignored σ n :
  reachable (self σ) →
  source n ∉ service_name <$> services (self σ) →
  mark_notifications_as_seen [n] σ = (Return (), σ) ∧
  ∀ before after,
    mark_notifications_as_seen (before ++ n :: after) σ
    = mark_notifications_as_seen (before ++ after) σ.
Proof.
  intros Hreach Hsrc.
  assert (Hnone : seen_notifications (self σ) !! source n = None).
  { apply eq_None_not_Some. by rewrite (reachable_keys _ Hreach). }
  split.
  - unfold mark_notifications_as_seen. rewrite for_in_cons.
    by rewrite mark_one_unknown.
  - intros before after. unfold mark_notifications_as_seen.
    rewrite !for_in_app.
    pose proof (mark_returns before σ) as Hret.
    destruct (mark_keeps before σ) as [_ Hg].
    unfold mark_notifications_as_seen in Hret, Hg.
    destruct (for_in before mark_one () σ) as [[[]|e] σ']; [|done].
    rewrite for_in_cons, mark_one_unknown; [done|].
    specialize (Hg (source n)). cbn in Hg. rewrite Hnone in Hg.
    by inversion Hg.
Qed.

(** C7, as amended: the two fetching methods and
    [mark_notifications_as_seen] only add ids to the seen sets.
    [add_service] leaves the sets stored under other names alone and, for a
    configured provider, stores an empty set under the provider's own name:
    no id is lost when that name was not registered before, and nothing
    changes for a provider that is not configured. *)
Theorem seen_sets_only_grow σ :
  seen_le (self σ) (self (snd (get_all_notifications σ))) ∧
  seen_le (self σ) (self (snd (get_new_notifications σ))) ∧
  (∀ ns, seen_le (self σ) (self (snd (mark_notifications_as_seen ns σ)))) ∧
  (∀ s,
     (∀ k, k ≠ service_name s →
        seen_notifications (self (snd (add_service s σ))) !! k
        = seen_notifications (self σ) !! k) ∧
     (is_configured s = true →
        seen_notifications (self (snd (add_service s σ))) !! service_name s
        = Some ∅) ∧
     (is_configured s = false → snd (add_service s σ) = σ) ∧
     (seen_notifications (self σ) !! service_name s = None →
        seen_le (self σ) (self (snd (add_service s σ))))).
Proof.
  split; [|split; [|split]].
  - rewrite get_all_notifications_unfold, get_all_loop_self.
    apply grows_seen_le, grows_refl.
  - rewrite get_new_notifications_unfold. apply grows_seen_le.
    apply get_new_loop_keeps.
  - intros ns. apply grows_seen_le, mark_keeps.
  - intros s. unfold add_service.
    destruct (is_configured s); cbn; repeat split; try done.
    + intros k Hk. by rewrite lookup_insert_ne.
    + intros _. by rewrite lookup_insert_eq.
    + intros Hnone name a Ha. cbn. exists a. split; [|done].
      rewrite lookup_insert_ne; [done|]. intros <-. congruence.
    + intros _ name a Ha. eauto.
Qed.

End manager_facts.

(** *** The two claims above, run *)

Section fetch_examples.
Import Py notification_service examples.

(** C8 on the registry [X; S; Y], where the fetch of [S] returns [None]. *)
Lemma none_fetch_contributes_nothing_witness :
  get_all_body (silent "S") [note "X" "1"] (at_second (silent "S"))
  = (Return [note "X" "1"], set_world (at_second (silent "S")) 2) ∧
  fst (get_new_notifications (registered [X; silent "S"; Y]))
  = Return [note "X" "1"; note "Y" "2"] ∧
  fst (get_all_notifications (registered [X; silent "S"; Y]))
  = Return [note "X" "1"; note "Y" "2"].
Proof.
  destruct (none_fetch_contributes_nothing
              (silent "S") (at_second (silent "S")) 2 eq_refl)
    as [Hbody Hcall].
  split; [apply Hbody|].
  destruct (Hcall (registered [X; silent "S"; Y]) [X] [Y] [note "X" "1"] eq_refl)
    as (_ & Hnew & Hall).
  split.
  - rewrite Hnew; reflexivity.
  - rewrite Hall; [reflexivity|reflexivity|repeat constructor..].
Defined.

(** C3 on the registry [X; F; Y], where the fetch of [F] raises a
    [RequestException], and where it raises [SystemExit]. *)
Lemma raising_fetch_is_isolated_witness :
  get_all_body (failing "F" (RequestException "timeout")) [note "X" "1"]
    (at_second (failing "F" (RequestException "timeout")))
  = (Return [note "X" "1"],
     set_world (at_second (failing "F" (RequestException "timeout"))) 2) ∧
  fst (get_new_notifications
         (registered [X; failing "F" (RequestException "timeout"); Y]))
  = Return [note "X" "1"; note "Y" "2"] ∧
  fst (get_all_notifications
         (registered [X; failing "F" (RequestException "timeout"); Y]))
  = Return [note "X" "1"; note "Y" "2"] ∧
  get_new_notifications (registered [X; failing "F" SystemExit; Y])
  = (Raise SystemExit, set_world (at_second (failing "F" SystemExit)) 2).
Proof.
  destruct (raising_fetch_is_isolated
              (failing "F" (RequestException "timeout"))
              (at_second (failing "F" (RequestException "timeout")))
              (RequestException "timeout") 2 eq_refl)
    as [Hcaught _].
  destruct (Hcaught eq_refl) as [Hbody Hcall].
  split; [apply Hbody|].
  destruct (Hcall (registered [X; failing "F" (RequestException "timeout"); Y])
              [X] [Y] [note "X" "1"] eq_refl)
    as (_ & Hnew & Hall).
  split; [|split].
  - rewrite Hnew; reflexivity.
  - rewrite Hall; [reflexivity|reflexivity|repeat constructor..].
  - destruct (raising_fetch_is_isolated
                (failing "F" SystemExit) (at_second (failing "F" SystemExit))
                SystemExit 2 eq_refl)
      as [_ Hpast].
    destruct (Hpast eq_refl) as [_ Hleaves].
    destruct (Hleaves (registered [X; failing "F" SystemExit; Y])
                [X] [Y] [note "X" "1"] eq_refl)
      as [_ Hnew'].
    by apply Hnew'.
Defined.

(** C3, as stated, fails: a [KeyboardInterrupt] raised by the second
    provider's fetch leaves both methods, the third provider is never
    asked and the first provider's item is lost with the list. *)
Lemma keyboard_interrupt_propagates :
  get_all_notifications (registered [X; failing "F" KeyboardInterrupt; Y])
  = (Raise KeyboardInterrupt,
     set_world (registered [X; failing "F" KeyboardInterrupt; Y]) 2) ∧
  fst (get_new_notifications (registered [X; failing "F" KeyboardInterrupt; Y]))
  = Raise KeyboardInterrupt.
Proof. split; reflexivity. Qed.

(** C1 on the registry [X; Y]: after a first poll, and after a full fetch
    marked as seen, the next poll of the same items is empty. *)
Lemma seen_ids_are_not_new_witness :
  get_new_body X [] (snd (get_new_notifications (registered [X; Y])))
  = (Return [], set_world (snd (get_new_notifications (registered [X; Y]))) 3) ∧
  fst (get_new_notifications (snd (get_new_notifications (registered [X; Y]))))
  = Return [] ∧
  fst (get_new_notifications
         (snd (mark_notifications_as_seen [note "X" "1"; note "Y" "2"]
                 (snd (get_all_notifications (registered [X; Y]))))))
  = Return [].
Proof.
  destruct (@seen_ids_are_not_new nat) as (Hbody & Hagain & Hmarked).
  split; [|split].
  - apply (Hbody X (snd (get_new_notifications (registered [X; Y])))
             [note "X" "1"] 3 [] eq_refl).
    intros n ->%list_elem_of_singleton.
    exists {["1"]}. split; [reflexivity|]. by apply elem_of_singleton.
  - rewrite (Hagain (registered [X; Y]) [note "X" "1"; note "Y" "2"]
               (snd (get_new_notifications (registered [X; Y])))
               eq_refl eq_refl).
    reflexivity.
  - rewrite (Hmarked (registered [X; Y]) [note "X" "1"; note "Y" "2"]
               (snd (get_all_notifications (registered [X; Y])))
               (snd (mark_notifications_as_seen [note "X" "1"; note "Y" "2"]
                       (snd (get_all_notifications (registered [X; Y])))))
               eq_refl eq_refl).
    + reflexivity.
    + repeat constructor.
    + reflexivity.
Defined.

(** C2 on the registry [X1; Y1], whose two items share the id "1". *)
Lemma colliding_ids_are_kept_apart_witness :
  (∃ res, fst (get_all_notifications (registered [X1; Y1])) = Return res ∧
          note "X" "1" ∈ res ∧ note "Y" "1" ∈ res) ∧
  (∃ res σ' (sx' sy' : gset string),
     get_new_notifications (registered [X1; Y1]) = (Return res, σ') ∧
     note "X" "1" ∈ res ∧ note "Y" "1" ∈ res ∧
     seen_notifications (self σ') !! "X" = Some sx' ∧ "1" ∈ sx' ∧
     seen_notifications (self σ') !! "Y" = Some sy' ∧ "1" ∈ sy').
Proof.
  destruct (colliding_ids_are_kept_apart (registered [X1; Y1])
              [] X1 [] (note "X" "1") [] [] Y1 [] (note "Y" "1") [] [])
    as (Hall & Hnew & _).
  { reflexivity. }
  { repeat constructor. }
  { discriminate. }
  { reflexivity. }
  split.
  - destruct Hall as (a1 & a2 & a3 & σ' & Hall). rewrite Hall.
    eexists. split; [reflexivity|]. set_solver.
  - destruct (Hnew ∅ ∅) as (f1 & fx & f2 & fy & f3 & σ' & sx' & sy' & Hcall &
                             Hx & _ & Hy & _ & Hsx & Hix & Hsy & Hiy).
    { reflexivity. }
    { reflexivity. }
    { apply not_elem_of_empty. }
    { apply not_elem_of_empty. }
    { apply not_elem_of_nil. }
    { apply not_elem_of_nil. }
    { apply not_elem_of_nil. }
    { apply not_elem_of_nil. }
    exists (f1 ++ fx ++ f2 ++ fy ++ f3), σ', sx', sy'.
    split; [done|]. set_solver.
Defined.


(** C10 on a registry with one provider, [X]. *)
Lemma mark_unknown_source_ignored_witness :
  mark_notifications_as_seen [note "Z" "9"] (registered [X])
  = (Return (), registered [X]) ∧
  mark_notifications_as_seen [note "X" "1"; note "Z" "9"; note "X" "2"]
    (registered [X])
  = mark_notifications_as_seen [note "X" "1"; note "X" "2"] (registered [X]).
Proof.
  destruct (mark_unknown_source_ignored (registered [X]) (note "Z" "9")
              (reachable_add_service X fresh_state reachable_init))
    as [Hone Hmid].
  { apply (bool_decide_unpack _). by vm_compute. }
  split; [apply Hone|]. apply (Hmid [note "X" "1"] [note "X" "2"]).
Defined.

(** C7, as stated, fails for [add_service]: registering a provider under a
    name already in use empties the set of ids seen under that name. *)
Lemma add_service_again_forgets :
  ¬ seen_le (self (snd (get_new_notifications (registered [X]))))
            (self (snd (add_service X
                          (snd (get_new_notifications (registered [X])))))).
Proof.
  intros Hle. destruct (Hle "X" {["1"]} eq_refl) as (b & Hb & Hsub).
  vm_compute in Hb. injection Hb as <-.
  apply (not_elem_of_empty (C:=gset string) "1"). apply Hsub.
  by apply elem_of_singleton.
Qed.

(** C7 on the registry [X]: registering [Y], whose name is new, and polling
    lose no id. *)
Lemma seen_sets_only_grow_witness :
  seen_le (self (registered [X])) (self (snd (add_service Y (registered [X])))) ∧
  seen_le (self (registered [X]))
          (self (snd (get_new_notifications (registered [X])))).
Proof.
  destruct (seen_sets_only_grow (registered [X])) as (_ & Hnew & _ & Hadd).
  split; [|apply Hnew].
  destruct (Hadd Y) as (_ & _ & _ & Hfresh). apply Hfresh. reflexivity.
Defined.

End fetch_examples.

(** * Properties of the GitHub adapter *)

Section github_facts.
Import Py notification_service github_service.
Context {World : Type}.
Context (requests_get_json : World → outcome json * World).
Context (fromisoformat : string → outcome datetime).
Context (now : World → datetime).

#[local] Abbreviation convert_body := (convert_body fromisoformat now).
#[local] Abbreviation _convert_github_notification :=
  (_convert_github_notification fromisoformat now).
#[local] Abbreviation convert_all := (convert_all fromisoformat now).
#[local] Abbreviation get_notifications :=
  (github_service.get_notifications requests_get_json fromisoformat now).
#[local] Abbreviation converted := (converted fromisoformat now).

Lemma get_raises o key dflt e :
  get o key dflt = Raise e → is_Exception e = true.
Proof. destruct o; cbn; intros [=]; by subst. Qed.

(** Whatever the conversion raises derives from [Exception]. *)
Lemma convert_body_raises self (w : World) raw e :
  convert_body self w raw = Raise e → is_Exception e = true.
Proof.
  unfold github_service.convert_body, mbind, outcome_bind.
  repeat (match goal with
          | |- context [match get ?o ?k ?d with _ => _ end] =>
              let H := fresh "Hget" in
              destruct (get o k d) as [?|?] eqn:H;
              [|intros [= <-]; by eapply get_raises]
          end).
  match goal with
  | H : get raw "reason" _ = Return ?r |- _ => destruct r
  end; cbn; intros [=]; by subst.
Qed.

Example refused_request_gives_None :
  github_service.get_notifications examples.refused fromisoformat
    examples.clock examples.with_token 0
  = (Return None, 1).
Proof. reflexivity. Qed.

Lemma _convert_github_notification_eq self (w : World) raw :
  _convert_github_notification self w raw =
  Return (match convert_body self w raw with
          | Return n => Some n
          | Raise _ => None
          end).
Proof.
  unfold github_service._convert_github_notification.
  destruct (convert_body self w raw) as [n|e] eqn:Hc; [done|].
  by rewrite (convert_body_raises _ _ _ _ Hc).
Qed.

Lemma converted_cons self (w : World) raw raws :
  converted self w (raw :: raws) =
  match convert_body self w raw with
  | Return n => n :: converted self w raws
  | Raise _ => converted self w raws
  end.
Proof.
  unfold github_service.converted. cbn [omap list_omap].
  by destruct (github_service.convert_body fromisoformat now self w raw).
Qed.

Lemma convert_all_eq self (w : World) raws acc :
  convert_all self w raws acc = Return (acc ++ converted self w raws).
Proof.
  revert acc. induction raws as [|raw raws IH]; intros acc.
  - cbn. by rewrite app_nil_r.
  - cbn [github_service.convert_all].
    rewrite _convert_github_notification_eq, converted_cons.
    unfold mbind, outcome_bind.
    destruct (github_service.convert_body fromisoformat now self w raw)
      as [n|e]; rewrite IH; by rewrite <- ?app_assoc.
Qed.

Lemma converted_app self (w : World) raws raws' :
  converted self w (raws ++ raws')
  = converted self w raws ++ converted self w raws'.
Proof. unfold github_service.converted. apply omap_app. Qed.

(** C5: when the conversion of one raw item raises, the fetch still
    returns, and what it returns are the notifications of the items before
    it followed by those of the items after it: that one item is dropped
    and nothing else. *)
Theorem translation_fault_drops_one_item self (w w' : World)
    before bad after e :
  is_configured self = true →
  requests_get_json w = (Return (JArr (before ++ bad :: after)), w') →
  convert_body self w' bad = Raise e →
  get_notifications self w
  = (Return (Some (converted self w' before ++ converted self w' after)), w').
Proof.
  intros Hconf Hreq Hbad. unfold github_service.get_notifications.
  rewrite Hconf, Hreq. cbn [negb mbind outcome_bind iter].
  rewrite convert_all_eq. cbn [app]. do 3 f_equal.
  rewrite converted_app. f_equal.
  by rewrite converted_cons, Hbad.
Qed.

(** The adapter answers [None] where it cannot fetch: without a token, and
    when the request raises a [RequestException]. *)
Lemma get_notifications_None self (w : World) :
  (is_configured self = false →
   get_notifications self w = (Return None, w)) ∧
  (∀ e w', is_configured self = true →
     requests_get_json w = (Raise e, w') → is_RequestException e = true →
     get_notifications self w = (Return None, w')).
Proof.
  unfold github_service.get_notifications. split.
  - by intros ->.
  - intros e w' -> -> He. cbn. by rewrite He.
Qed.

Lemma lower_char_idemp c : lower_char (lower_char c) = lower_char c.
Proof. by destruct c as [[] [] [] [] [] [] [] []]. Qed.

Lemma lower_upper_char c : lower_char (upper_char c) = lower_char c.
Proof. by destruct c as [[] [] [] [] [] [] [] []]. Qed.

(** [title] changes the case of letters and nothing else. *)
Lemma lower_title_from b s : lower (title_from b s) = lower s.
Proof.
  revert b. induction s as [|c s IH]; intros b; [done|].
  cbn [title_from lower]. rewrite IH.
  destruct b; by rewrite ?lower_char_idemp, ?lower_upper_char.
Qed.

(** C4, as amended: a reason whose lower-cased form is not a key of the
    table gets the type [reason.title()], which differs from the reason in
    the case of letters only: every run of letters starts with a capital
    and everything else, underscores included, stays.  The type of
    "custom_reason" is "Custom_Reason". *)
Theorem unmapped_reason_is_title_cased :
  (∀ reason, type_mapping !! lower reason = None →
     _get_notification_type reason = Py.title reason ∧
     lower (_get_notification_type reason) = lower reason) ∧
  _get_notification_type "custom_reason" = "Custom_Reason".
Proof.
  split; [|reflexivity].
  intros reason Hnone. unfold _get_notification_type. rewrite Hnone. cbn.
  split; [done|]. apply lower_title_from.
Qed.

End github_facts.

(** *** The adapter, run *)

Section github_examples.
Import Py notification_service github_service examples.

(** C5 on a payload of four items, the second of which is a string: the
    fetch returns, without it (and without the third, whose [subject] is
    [null] and which fails to convert as well). *)
Lemma translation_fault_drops_one_item_witness :
  fst (github_service.get_notifications
         (answer (JArr [raw_item "1" "mention"; JStr "oops"; no_subject;
                        raw_item "2" "custom_reason"]))
         no_parse clock with_token 0)
  = Return (Some
      (converted no_parse clock with_token 1 [raw_item "1" "mention"]
       ++ converted no_parse clock with_token 1
            [no_subject; raw_item "2" "custom_reason"])) ∧
  (id <$> converted no_parse clock with_token 1
            [no_subject; raw_item "2" "custom_reason"]) = [JStr "2"].
Proof.
  split; [|reflexivity].
  rewrite (translation_fault_drops_one_item
             (answer (JArr [raw_item "1" "mention"; JStr "oops"; no_subject;
                            raw_item "2" "custom_reason"]))
             no_parse clock with_token 0 1
             [raw_item "1" "mention"] (JStr "oops")
             [no_subject; raw_item "2" "custom_reason"]
             (AttributeError "get") eq_refl eq_refl eq_refl).
  reflexivity.
Defined.

(** C4, as stated, fails on its own example. *)
Lemma custom_reason_keeps_underscore :
  type_mapping !! lower "custom_reason" = None ∧
  _get_notification_type "custom_reason" ≠ "Custom Reason".
Proof. split; [reflexivity|]. by vm_compute. Qed.

(** C4 on the reason "ci_activity", which the table does not hold. *)
Lemma unmapped_reason_is_title_cased_witness :
  _get_notification_type "ci_activity" = "Ci_Activity".
Proof.
  destruct unmapped_reason_is_title_cased as [Hunmapped _].
  destruct (Hunmapped "ci_activity" eq_refl) as [-> _]. reflexivity.
Defined.

End github_examples.

(** * More on the notification manager *)

Section manager_more.
Import Py notification_service.
Context {World : Type}.

#[local] Abbreviation notification := (Notification string).
#[local] Abbreviation service := (NotificationService World).
#[local] Abbreviation manager := (NotificationManager World).
#[local] Abbreviation seen_dict := (gmap string (gset string)).
#[local] Abbreviation fetched := (outcome (option (list notification))).

Implicit Types (σ : state World) (s : service) (m : manager)
  (acc items : list notification) (seen : seen_dict) (r : fetched)
  (trace : list (service * fetched)).

(** [get_all_notifications], when every raise is caught, returns the
    batches of the providers one after the other: registry order between
    providers, the provider's own order within a batch.  It changes nothing
    but the world. *)
Theorem get_all_notifications_concatenates σ :
  Forall (λ p, caught p.2 = true) (polled (services (self σ)) (world σ)) →
  get_all_notifications σ
  = (Return (concat ((λ p, batch p.2) <$> polled (services (self σ)) (world σ))),
     set_world σ (world_after (services (self σ)) (world σ))).
Proof.
  intros Hc. by rewrite get_all_notifications_unfold, get_all_loop_eq.
Qed.

Lemma loop_raise (body : service → list notification → M World (list notification))
    (svcs : list service) acc σ e σ' :
  (∀ s acc σ e σ', body s acc σ = (Raise e, σ') →
     is_Exception e = false ∧ fst (get_notifications s (world σ)) = Raise e) →
  for_in svcs body acc σ = (Raise e, σ') →
  is_Exception e = false ∧
  ∃ s w, s ∈ svcs ∧ fst (get_notifications s w) = Raise e.
Proof.
  intros Hbody. revert acc σ. induction svcs as [|s svcs IH]; intros acc σ.
  - cbn. by intros [=].
  - rewrite for_in_cons. destruct (body s acc σ) as [[acc'|e'] σ1] eqn:Hs.
    + intros Hrest. destruct (IH _ _ Hrest) as (He & s' & w & Hin & Hw).
      split; [done|]. exists s', w. split; [by right|done].
    + intros [= -> ->]. destruct (Hbody _ _ _ _ _ Hs) as [He Hw].
      split; [done|]. exists s, (world σ). split; [left|done].
Qed.

(** The two fetching methods never raise an exception derived from
    [Exception]: what leaves them is an exception [except Exception] does
    not stop, and a provider's fetch raised it. *)
Theorem fetching_raises_only_what_a_fetch_raised σ e σ' :
  get_all_notifications σ = (Raise e, σ') ∨
  get_new_notifications σ = (Raise e, σ') →
  is_Exception e = false ∧
  ∃ s w, s ∈ services (self σ) ∧ fst (get_notifications s w) = Raise e.
Proof.
  rewrite get_all_notifications_unfold, get_new_notifications_unfold.
  intros [Hraise|Hraise]; eapply loop_raise; try exact Hraise.
  - intros s acc σ0 e0 σ0'. rewrite get_all_body_eq.
    destruct (get_notifications s (world σ0)) as [[o|e1] w'] eqn:Hf; [done|].
    destruct (is_Exception e1) eqn:He; [done|]. by intros [= -> _].
  - intros s acc σ0 e0 σ0'. rewrite get_new_body_eq.
    destruct (get_notifications s (world σ0)) as [[o|e1] w'] eqn:Hf; [done|].
    destruct (is_Exception e1) eqn:He; [done|]. by intros [= -> _].
Qed.

Lemma reachable_configured m :
  reachable m → Forall (λ s, is_configured s = true) (services m).
Proof.
  induction 1 as [|s σ _ IH|σ _ IH|σ _ IH|ns σ _ IH].
  - constructor.
  - unfold add_service. destruct (is_configured s) eqn:Hs; [|done]. cbn.
    apply Forall_app. split; [done|]. by constructor.
  - by rewrite get_all_notifications_unfold, get_all_loop_self.
  - rewrite get_new_notifications_unfold.
    by destruct (get_new_loop_keeps (services (self σ)) [] σ) as [-> _].
  - by destruct (mark_keeps ns σ) as [-> _].
Qed.

(** In every manager the program can build, each registered provider
    passed its readiness check, and the keys of the seen dict are exactly
    the names of the registered providers. *)
Theorem registry_invariant m :
  reachable m →
  Forall (λ s, is_configured s = true) (services m) ∧
  dom (seen_notifications m) = list_to_set (service_name <$> services m).
Proof.
  intros Hreach. split; [by apply reachable_configured|].
  apply set_eq. intros k.
  rewrite elem_of_dom, elem_of_list_to_set. by apply reachable_keys.
Qed.

(** Only [add_service] changes the registry: the other three methods leave
    the list of providers as it is, and [add_service] appends the provider
    at the end when it is configured and does nothing otherwise. *)
Theorem only_add_service_changes_registry σ :
  services (self (snd (get_all_notifications σ))) = services (self σ) ∧
  services (self (snd (get_new_notifications σ))) = services (self σ) ∧
  (∀ ns, services (self (snd (mark_notifications_as_seen ns σ)))
         = services (self σ)) ∧
  (∀ s, services (self (snd (add_service s σ)))
        = services (self σ) ++ (if is_configured s then [s] else [])).
Proof.
  split; [|split; [|split]].
  - by rewrite get_all_notifications_unfold, get_all_loop_self.
  - rewrite get_new_notifications_unfold. apply get_new_loop_keeps.
  - intros ns. apply mark_keeps.
  - intros s. unfold add_service. destruct (is_configured s); cbn; [done|].
    by rewrite app_nil_r.
Qed.

(** *** The seen dict after a poll and after marking *)

Lemma union_empty_fmap (o : option (gset string)) :
  (λ a : gset string, a ∪ list_to_set []) <$> o = o.
Proof. destruct o as [a|]; [|done]. cbn. f_equal. set_solver. Qed.

Lemma batches_under_cons k s r trace :
  batches_under k ((s, r) :: trace)
  = (if decide (service_name s = k) then batch r else [])
    ++ batches_under k trace.
Proof. reflexivity. Qed.

Lemma collect_new_lookup trace seen k :
  snd (collect_new trace seen) !! k
  = (λ a : gset string, a ∪ list_to_set (id <$> batches_under k trace))
      <$> seen !! k.
Proof.
  revert seen. induction trace as [|[s r] trace IH]; intros seen.
  - cbn. by rewrite union_empty_fmap.
  - cbn [collect_new snd]. rewrite IH, batches_under_cons.
    destruct (decide (service_name s = k)) as [<-|Hk].
    + destruct (seen !! service_name s) as [a|] eqn:Ha.
      * rewrite (seen_step_lookup _ _ _ a) by done. cbn. f_equal.
        rewrite fmap_app, list_to_set_app_L. set_solver.
      * unfold seen_step. rewrite Ha. cbn. by rewrite Ha.
    + rewrite seen_step_frame by done. by destruct (seen !! k).
Qed.

(** After a [get_new_notifications] in which every raise was caught, the
    set stored under each name holds what it held before and the ids of
    everything the providers of that name fetched, new or not; no key is
    added or removed. *)
Theorem seen_after_get_new σ k :
  Forall (λ p, caught p.2 = true) (polled (services (self σ)) (world σ)) →
  seen_notifications (self (snd (get_new_notifications σ))) !! k
  = (λ a : gset string,
       a ∪ list_to_set
             (id <$> batches_under k (polled (services (self σ)) (world σ))))
      <$> seen_notifications (self σ) !! k.
Proof.
  intros Hc. rewrite get_new_notifications_unfold, get_new_loop_eq by done.
  cbn. apply collect_new_lookup.
Qed.

Lemma mark_world (ns : list notification) σ :
  world (snd (mark_notifications_as_seen ns σ)) = world σ.
Proof.
  apply (for_in_invariant (λ σ', world σ' = world σ)); [|done].
  by intros n [] σ' <-.
Qed.

Lemma mark_lookup (ns : list notification) σ k :
  seen_notifications (self (snd (mark_notifications_as_seen ns σ))) !! k
  = (λ a : gset string, a ∪ list_to_set (id <$> from_source k ns))
      <$> seen_notifications (self σ) !! k.
Proof.
  unfold mark_notifications_as_seen. revert σ.
  induction ns as [|n ns IH]; intros σ.
  - cbn. by rewrite union_empty_fmap.
  - rewrite for_in_cons. cbn [mark_one].
    set (σ1 := snd (mark_one n () σ)).
    change (seen_notifications (self (snd (for_in ns mark_one () σ1))) !! k
            = (λ a : gset string,
                 a ∪ list_to_set (id <$> from_source k (n :: ns)))
                <$> seen_notifications (self σ) !! k).
    rewrite IH. unfold σ1. rewrite mark_one_lookup.
    destruct (seen_notifications (self σ) !! k) as [a|]; [|done]. cbn.
    f_equal. fold (from_source k ns).
    destruct (decide (source n = k)); [|done].
    rewrite fmap_cons. set_solver.
Qed.

(** [mark_notifications_as_seen] returns normally and adds, under every
    registered name, the ids of the given notifications whose source is
    that name; it touches neither the registry nor the world, and it adds
    no key. *)
Theorem mark_adds_ids_under_their_source (ns : list notification) σ :
  fst (mark_notifications_as_seen ns σ) = Return () ∧
  services (self (snd (mark_notifications_as_seen ns σ))) = services (self σ) ∧
  world (snd (mark_notifications_as_seen ns σ)) = world σ ∧
  ∀ k, seen_notifications (self (snd (mark_notifications_as_seen ns σ))) !! k
       = (λ a : gset string, a ∪ list_to_set (id <$> from_source k ns))
           <$> seen_notifications (self σ) !! k.
Proof.
  split; [apply mark_returns|]. split; [apply mark_keeps|].
  split; [apply mark_world|]. intros k. apply mark_lookup.
Qed.

Lemma elem_of_from_source_ids k i (ns : list notification) :
  i ∈ id <$> from_source k ns ↔ (k, i) ∈ (λ n, (source n, id n)) <$> ns.
Proof.
  unfold from_source. rewrite !list_elem_of_fmap. split.
  - intros (n & -> & [Hs Hn]%list_elem_of_filter). exists n. by rewrite Hs.
  - intros (n & [= -> ->] & Hn). exists n. split; [done|].
    by apply list_elem_of_filter.
Qed.

(** Marking depends on the pairs (source, id) only: two lists with the
    same pairs, in whatever order and however often, leave the same state.
    So marking a list twice is marking it once. *)
Theorem mark_depends_on_pairs_only (ns ns' : list notification) σ :
  (∀ p, p ∈ (λ n, (source n, id n)) <$> ns ↔
        p ∈ (λ n, (source n, id n)) <$> ns') →
  mark_notifications_as_seen ns σ = mark_notifications_as_seen ns' σ.
Proof.
  intros Hsame.
  assert (Hstate : ∀ l : list notification,
    mark_notifications_as_seen l σ
    = (Return (),
       {| self := set_seen (self σ)
            (seen_notifications (self (snd (mark_notifications_as_seen l σ))));
          world := world σ |})).
  { intros l. pose proof (mark_returns l σ) as Hr.
    destruct (mark_keeps l σ) as [Hs _]. pose proof (mark_world l σ) as Hw.
    destruct (mark_notifications_as_seen l σ) as [o [[svcs seen'] w]].
    cbn in *. by subst. }
  rewrite (Hstate ns), (Hstate ns'). do 3 f_equal.
  apply map_eq. intros k. rewrite !mark_lookup.
  destruct (seen_notifications (self σ) !! k) as [a|]; [|done]. cbn.
  f_equal. apply set_eq. intros i.
  rewrite !elem_of_union, !elem_of_list_to_set, !elem_of_from_source_ids.
  by rewrite Hsame.
Qed.

(** *** What a poll returns *)

Lemma seen_step_sublist name items seen :
  sublist (fst (seen_step name items seen)) items.
Proof.
  unfold seen_step. destruct (seen !! name); cbn.
  - apply unseen_sublist.
  - apply sublist_nil_l.
Qed.

Lemma collect_new_sublist trace seen :
  sublist (fst (collect_new trace seen)) (concat ((λ p, batch p.2) <$> trace)).
Proof.
  revert seen. induction trace as [|[s r] trace IH]; intros seen; [done|].
  cbn. apply sublist_app; [apply seen_step_sublist|apply IH].
Qed.

(** What [get_new_notifications] returns is a sub-sequence of what
    [get_all_notifications] returns from the same state: items are left
    out, none is added, moved or changed. *)
Theorem new_is_a_subsequence_of_all σ :
  Forall (λ p, caught p.2 = true) (polled (services (self σ)) (world σ)) →
  ∃ new all,
    fst (get_new_notifications σ) = Return new ∧
    fst (get_all_notifications σ) = Return all ∧
    sublist new all.
Proof.
  intros Hc. do 2 eexists.
  rewrite get_new_notifications_unfold, get_new_loop_eq by done.
  rewrite get_all_notifications_unfold, get_all_loop_eq by done. cbn.
  split; [done|]. split; [done|]. apply collect_new_sublist.
Qed.

Lemma unseen_all items (a : gset string) :
  NoDup (id <$> items) → (∀ n, n ∈ items → id n ∉ a) →
  unseen items a = (items, a ∪ list_to_set (id <$> items)).
Proof.
  revert a. induction items as [|x items IH]; intros a Hnd Hnew.
  - cbn. f_equal. set_solver.
  - rewrite fmap_cons in Hnd. apply NoDup_cons in Hnd as [Hx Hnd].
    rewrite unseen_cons_new by (apply Hnew; left).
    rewrite IH; [cbn; f_equal; set_solver|done|].
    intros n Hn. rewrite not_elem_of_union, not_elem_of_singleton.
    split; [apply Hnew; by right|].
    intros Heq. apply Hx. rewrite <- Heq. apply list_elem_of_fmap. eauto.
Qed.

Lemma unseen_app items items' (a : gset string) :
  unseen (items ++ items') a
  = (fst (unseen items a) ++ fst (unseen items' (snd (unseen items a))),
     snd (unseen items' (snd (unseen items a)))).
Proof.
  revert a. induction items as [|x items IH]; intros a.
  - cbn. by destruct (unseen items' a).
  - rewrite <- app_comm_cons. destruct (decide (id x ∈ a)) as [Hin|Hin].
    + rewrite !unseen_cons_seen by done. apply IH.
    + rewrite !unseen_cons_new by done. by rewrite IH.
Qed.

Lemma collect_new_all trace seen :
  (∀ p, p ∈ trace → is_Some (seen !! service_name p.1)) →
  (∀ k, NoDup (id <$> batches_under k trace)) →
  (∀ k (a : gset string), seen !! k = Some a →
     ∀ n, n ∈ batches_under k trace → id n ∉ a) →
  fst (collect_new trace seen) = concat ((λ p, batch p.2) <$> trace).
Proof.
  revert seen. induction trace as [|[s r] trace IH]; intros seen Hkeys Hnd Hnew;
    [done|].
  cbn [collect_new fst fmap list_fmap concat snd].
  destruct (Hkeys (s, r)) as [a Ha]; [left|]. cbn in Ha.
  pose proof (Hnd (service_name s)) as Hnd0.
  rewrite batches_under_cons, decide_True, fmap_app in Hnd0 by done.
  apply NoDup_app in Hnd0 as (Hnd1 & Hdisj & _).
  assert (Hstep : seen_step (service_name s) (batch r) seen
                  = (batch r, <[service_name s :=
                                  a ∪ list_to_set (id <$> batch r)]> seen)).
  { unfold seen_step. rewrite Ha, unseen_all; [done|done|].
    intros n Hn. apply (Hnew _ _ Ha). rewrite batches_under_cons, decide_True
      by done. apply elem_of_app. by left. }
  rewrite Hstep. cbn [fst snd]. f_equal. apply IH.
  - intros p Hp. destruct (Hkeys p) as [b Hb]; [by right|].
    destruct (decide (service_name p.1 = service_name s)) as [->|Hne].
    + rewrite lookup_insert_eq. by eexists.
    + rewrite lookup_insert_ne by done. by eexists.
  - intros k. specialize (Hnd k). rewrite batches_under_cons, fmap_app in Hnd.
    by apply NoDup_app in Hnd as (_ & _ & Hnd).
  - intros k b Hb n Hn.
    destruct (decide (k = service_name s)) as [->|Hne].
    + rewrite lookup_insert_eq in Hb. injection Hb as <-.
      rewrite not_elem_of_union, elem_of_list_to_set. split.
      * apply (Hnew _ _ Ha). rewrite batches_under_cons. apply elem_of_app.
        by right.
      * intros Hin. apply (Hdisj _ Hin). apply list_elem_of_fmap. eauto.
    + rewrite lookup_insert_ne in Hb by done.
      apply (Hnew _ _ Hb). rewrite batches_under_cons. apply elem_of_app.
      by right.
Qed.

(** A first poll that returns everything: in a manager the program can
    build whose seen sets are all empty, when no id comes twice under one
    provider name, [get_new_notifications] returns the same list as
    [get_all_notifications]. *)
Theorem first_poll_returns_everything σ :
  reachable (self σ) →
  Forall (λ p, caught p.2 = true) (polled (services (self σ)) (world σ)) →
  (∀ k (a : gset string), seen_notifications (self σ) !! k = Some a → a = ∅) →
  (∀ k, NoDup (id <$> batches_under k (polled (services (self σ)) (world σ)))) →
  fst (get_new_notifications σ) = fst (get_all_notifications σ) ∧
  fst (get_all_notifications σ)
  = Return (concat ((λ p, batch p.2) <$> polled (services (self σ)) (world σ))).
Proof.
  intros Hreach Hc Hempty Hnd.
  rewrite get_new_notifications_unfold, get_new_loop_eq by done.
  rewrite get_all_notifications_unfold, get_all_loop_eq by done. cbn.
  split; [|done]. f_equal. apply collect_new_all; [|done|].
  - intros p Hp. apply (reachable_keys _ Hreach).
    apply list_elem_of_fmap. exists p.1. split; [done|].
    rewrite <- (polled_services (services (self σ)) (world σ)).
    apply list_elem_of_fmap. eauto.
  - intros k a Ha n _. rewrite (Hempty _ _ Ha). apply not_elem_of_empty.
Qed.

(** Two polls of one provider, whatever happened to the world in between:
    the second poll adds only items of its batch whose id was neither seen
    before the first poll nor fetched by it.  When the second batch is the
    first one followed by further items with distinct ids of their own, it
    adds exactly these further items. *)
Theorem next_poll_returns_only_new_ids s σ items1 w1 (a : gset string)
    acc1 σ2 items2 w2 acc2 :
  get_notifications s (world σ) = (Return (Some items1), w1) →
  seen_notifications (self σ) !! service_name s = Some a →
  self σ2 = self (snd (get_new_body s acc1 σ)) →
  get_notifications s (world σ2) = (Return (Some items2), w2) →
  ∃ fresh,
    fst (get_new_body s acc2 σ2) = Return (acc2 ++ fresh) ∧
    (∀ n, n ∈ fresh → n ∈ items2 ∧ (id n ∉ a) ∧ (id n ∉ id <$> items1)) ∧
    (∀ extra, items2 = items1 ++ extra →
       NoDup (id <$> extra) →
       (∀ n, n ∈ extra → (id n ∉ a) ∧ (id n ∉ id <$> items1)) →
       fresh = extra).
Proof.
  intros Hf1 Ha Hself Hf2.
  assert (Ha2 : seen_notifications (self σ2) !! service_name s
                = Some (a ∪ list_to_set (id <$> items1))).
  { rewrite Hself, get_new_body_eq, Hf1. cbn. by apply seen_step_lookup. }
  exists (fst (unseen items2 (a ∪ list_to_set (id <$> items1)))).
  split; [|split].
  - rewrite get_new_body_eq, Hf2. cbn. unfold seen_step. by rewrite Ha2.
  - intros n Hn. split.
    + eapply elem_of_sublist; [done|apply unseen_sublist].
    + apply unseen_first in Hn as [Hn _].
      rewrite not_elem_of_union, elem_of_list_to_set in Hn. done.
  - intros extra -> Hnd Hextra. rewrite unseen_app.
    rewrite unseen_seen.
    2:{ intros n Hn. apply elem_of_union_r, elem_of_list_to_set.
        apply list_elem_of_fmap. eauto. }
    cbn. rewrite unseen_all; [done|done|].
    intros n Hn. destruct (Hextra n Hn).
    by rewrite not_elem_of_union, elem_of_list_to_set.
Qed.

End manager_more.

(** * More on the GitHub adapter *)

Section github_more.
Import Py notification_service github_service.
Context {World : Type}.
Context (requests_get_json : World → outcome json * World).
Context (fromisoformat : string → outcome datetime).
Context (now : World → datetime).

#[local] Abbreviation convert_body := (convert_body fromisoformat now).
#[local] Abbreviation get_notifications :=
  (github_service.get_notifications requests_get_json fromisoformat now).
#[local] Abbreviation converted := (converted fromisoformat now).

Lemma lstrip_blank s :
  Forall (λ c, isspace c = true) (String.list_ascii_of_string s) → lstrip s = "".
Proof.
  induction s as [|c s IH]; [done|]. cbn.
  intros [Hc Hs]%Forall_cons. rewrite Hc. by apply IH.
Qed.

Lemma strip_empty_iff s :
  strip s = "" ↔ Forall (λ c, isspace c = true) (String.list_ascii_of_string s).
Proof.
  split.
  - induction s as [|c s IH]; [constructor|].
    unfold strip. cbn [lstrip String.list_ascii_of_string].
    destruct (isspace c) eqn:Hc.
    + intros Hs. constructor; [done|]. by apply IH.
    + cbn [rstrip]. rewrite Hc. by destruct (rstrip s).
  - intros Hall. unfold strip. by rewrite lstrip_blank.
Qed.

Lemma blank_or_visible (l : list ascii) :
  Forall (λ c, isspace c = true) l ∨ Exists (λ c, isspace c = false) l.
Proof.
  induction l as [|c l [IH|IH]].
  - left. constructor.
  - destruct (isspace c) eqn:Hc.
    + left. by constructor.
    + right. by left.
  - right. by right.
Qed.

Lemma is_configured_false_iff self :
  is_configured self = false ↔
  token self = None ∨
  ∃ t, token self = Some t ∧
       Forall (λ c, isspace c = true) (String.list_ascii_of_string t).
Proof.
  unfold is_configured. destruct (token self) as [t|].
  - rewrite negb_false_iff, String.eqb_eq, strip_empty_iff. split.
    + intros Hall. right. eauto.
    + by intros [[=]|(t' & [= <-] & Hall)].
  - split; [by left|done].
Qed.

(** The adapter is ready exactly when its token holds a character that is
    not white space: a missing token, an empty one and one made of blanks,
    tabs, newlines, no-break spaces or any other white space all leave it
    unconfigured. *)
Theorem configured_iff_token_has_a_visible_character self :
  is_configured self = true ↔
  ∃ t, token self = Some t ∧
       Exists (λ c, isspace c = false) (String.list_ascii_of_string t).
Proof.
  destruct (is_configured self) eqn:Hconf.
  - split; [intros _|done].
    destruct (token self) as [t|] eqn:Ht.
    + exists t. split; [done|].
      destruct (blank_or_visible (String.list_ascii_of_string t))
        as [Hall|Hex]; [|done].
      assert (is_configured self = false); [|congruence].
      apply is_configured_false_iff. right. eauto.
    + unfold is_configured in Hconf. by rewrite Ht in Hconf.
  - split; [done|]. intros (t & Ht & Hex).
    apply is_configured_false_iff in Hconf as [Hnone|(t' & Ht' & Hall)];
      [congruence|].
    assert (t' = t) as -> by congruence.
    apply Exists_exists in Hex as (c & Hin & Hc).
    rewrite Forall_forall in Hall. specialize (Hall c Hin). congruence.
Qed.

(** Without a usable token [get_notifications] answers [None] at once: no
    request is made, the world is as it was. *)
Theorem blank_token_makes_no_request self (w : World) :
  token self = None ∨
  (∃ t, token self = Some t ∧
        Forall (λ c, isspace c = true) (String.list_ascii_of_string t)) →
  get_notifications self w = (Return None, w).
Proof.
  intros Hblank%is_configured_false_iff.
  unfold github_service.get_notifications. by rewrite Hblank.
Qed.

(** *** Which raw items convert, and into what *)

Lemma get_dict d key dflt :
  get (JObj d) key dflt = Return (default dflt (assoc key d)).
Proof. reflexivity. Qed.

Lemma convert_body_iff self (w : World) raw :
  (∃ n, convert_body self w raw = Return n) ↔ convertible raw = true.
Proof.
  destruct raw as [| | | |l|d]; try (cbn; split; try done; by intros [n [=]]).
  unfold github_service.convert_body, convertible.
  rewrite !get_dict. unfold mbind, outcome_bind.
  destruct (assoc "subject" d) as [[| | | |?|?]|];
    destruct (assoc "repository" d) as [[| | | |?|?]|];
    destruct (assoc "reason" d) as [[| | | |?|?]|];
    cbn -[_get_notification_type replace_char truthy];
    (split; try done; try (by intros [n [=]]); by eexists).
Qed.

Lemma convert_body_origin self (w : World) d n :
  convert_body self w (JObj d) = Return n →
  source n = "GitHub" ∧ raw_data n = Some (JObj d).
Proof.
  unfold github_service.convert_body.
  rewrite !get_dict. unfold mbind, outcome_bind.
  destruct (assoc "subject" d) as [[| | | |?|?]|];
    destruct (assoc "repository" d) as [[| | | |?|?]|];
    destruct (assoc "reason" d) as [[| | | |?|?]|];
    cbn -[_get_notification_type replace_char truthy String.eqb];
    try done; by intros [= <-].
Qed.


(** What a converted notification holds, field by field: the id and the
    raw item as found; "No Title", "Unknown Repo" and "unknown" where the
    payload has no title, repository name or reason; the source "GitHub";
    the type derived from the reason; and as timestamp the parsed
    [updated_at] (with every "Z" read as "+00:00") or, when that is
    missing, empty, not a string or does not parse, the current time. *)
Theorem converted_fields self (w : World) d n :
  convert_body self w (JObj d) = Return n →
  id n = default JNull (assoc "id" d) ∧
  title n = default (JStr "No Title") (assoc "title" (sub_dict "subject" d)) ∧
  source n = "GitHub" ∧
  repository n
  = optional (default (JStr "Unknown Repo")
                (assoc "full_name" (sub_dict "repository" d))) ∧
  url n = optional (default JNull (assoc "url" (sub_dict "subject" d))) ∧
  raw_data n = Some (JObj d) ∧
  (∃ r, reason n = Some r ∧ type n = _get_notification_type r ∧
        r = match assoc "reason" d with Some (JStr r) => r | _ => "unknown" end) ∧
  timestamp n
  = match assoc "updated_at" d with
    | Some (JStr u) =>
        if String.eqb u "" then now w
        else match fromisoformat (replace_char "Z" "+00:00" u) with
             | Return t => t
             | Raise _ => now w
             end
    | _ => now w
    end.
Proof.
  unfold github_service.convert_body, sub_dict.
  rewrite !get_dict. unfold mbind, outcome_bind.
  destruct (assoc "subject" d) as [[| | | |?|?]|];
    destruct (assoc "repository" d) as [[| | | |?|?]|];
    destruct (assoc "reason" d) as [[| | | |?|?]|];
    cbn -[_get_notification_type replace_char truthy String.eqb];
    try done;
    intros [= <-]; cbn -[_get_notification_type replace_char truthy String.eqb];
    (repeat split; try done; [by eexists|]);
    destruct (assoc "updated_at" d) as [[|[]|z|u|[|??]|[|??]]|]; cbn; try done;
    try (by destruct (z =? 0)%Z); by destruct (String.eqb u "").
Qed.

Lemma raw_data_converted self (w : World) items :
  raw_data <$> converted self w items
  = Some <$> filter (λ raw, convertible raw = true) items.
Proof.
  induction items as [|raw items IH]; [done|].
  rewrite converted_cons, filter_cons.
  pose proof (convert_body_iff self w raw) as Hiff.
  destruct (github_service.convert_body fromisoformat now self w raw)
    as [n|e] eqn:Hc.
  - rewrite decide_True by (apply Hiff; eauto).
    rewrite !fmap_cons, IH. f_equal.
    destruct raw as [| | | |l|d]; try done.
    by apply convert_body_origin in Hc as [_ ->].
  - rewrite decide_False; [done|]. intros [n Hn]%Hiff. congruence.
Qed.

Lemma source_converted self (w : World) items :
  Forall (λ n, source n = service_name self) (converted self w items).
Proof.
  induction items as [|raw items IH]; [constructor|].
  rewrite converted_cons.
  destruct (github_service.convert_body fromisoformat now self w raw)
    as [n|e] eqn:Hc; [|done].
  constructor; [|done]. destruct raw as [| | | |l|d]; try done.
  by apply convert_body_origin in Hc as [-> _].
Qed.

Lemma get_notifications_payload self (w w' : World) payload :
  is_configured self = true →
  requests_get_json w = (Return payload, w') →
  get_notifications self w
  = match iter payload with
    | Return items => (Return (Some (converted self w' items)), w')
    | Raise e =>
        if is_RequestException e then (Return None, w') else (Raise e, w')
    end.
Proof.
  intros Hconf Hreq. unfold github_service.get_notifications.
  rewrite Hconf, Hreq. cbn [negb mbind outcome_bind].
  destruct (iter payload) as [items|e]; [|done].
  cbn [mbind outcome_bind]. by rewrite convert_all_eq.
Qed.

(** For a payload that is a list, [get_notifications] returns one
    notification per convertible item, in payload order, each carrying the
    raw item it was made from and the adapter's name as source. *)
Theorem one_notification_per_convertible_item self (w w' : World) items :
  is_configured self = true →
  requests_get_json w = (Return (JArr items), w') →
  ∃ ns,
    get_notifications self w = (Return (Some ns), w') ∧
    raw_data <$> ns = Some <$> filter (λ raw, convertible raw = true) items ∧
    Forall (λ n, source n = service_name self) ns.
Proof.
  intros Hconf Hreq. exists (converted self w' items).
  rewrite (get_notifications_payload _ _ _ _ Hconf Hreq). cbn.
  split; [done|]. split; [apply raw_data_converted|apply source_converted].
Qed.

Lemma converted_none self (w : World) items :
  Forall (λ raw, convertible raw = false) items → converted self w items = [].
Proof.
  induction 1 as [|raw items Hraw _ IH]; [done|].
  rewrite converted_cons, IH.
  pose proof (convert_body_iff self w raw) as Hiff.
  destruct (github_service.convert_body fromisoformat now self w raw)
    as [n|e] eqn:Hc; [|done].
  assert (convertible raw = true) by (apply Hiff; eauto). congruence.
Qed.

(** A payload that is not a list: a dictionary (an error object, say) or a
    string is iterated over its keys or characters, none of which converts,
    and the fetch returns the empty list; a number, a boolean or [null] is
    not iterable, and the [TypeError] leaves [get_notifications] instead of
    becoming [None]. *)
Theorem payload_that_is_no_list self (w w' : World) payload :
  is_configured self = true →
  requests_get_json w = (Return payload, w') →
  match payload with
  | JArr _ => True
  | JObj _ | JStr _ => get_notifications self w = (Return (Some []), w')
  | JNull | JBool _ | JNum _ =>
      ∃ msg, get_notifications self w = (Raise (TypeError msg), w')
  end.
Proof.
  intros Hconf Hreq. rewrite (get_notifications_payload _ _ _ _ Hconf Hreq).
  destruct payload as [| | |str|l|d]; cbn; try done; try (by eexists).
  - rewrite converted_none; [done|]. clear.
    induction str; cbn; by constructor.
  - rewrite converted_none; [done|]. clear.
    induction d as [|[??] ? ?]; cbn; by constructor.
Qed.

(** [get_notifications] answers [None] in two cases only: the adapter is
    not configured, or the request raised a [RequestException].  Any other
    exception of the request leaves the method. *)
Theorem None_means_no_token_or_request_error self (w : World) :
  (∀ w', get_notifications self w = (Return None, w') →
     is_configured self = false ∨
     ∃ e, requests_get_json w = (Raise e, w') ∧ is_RequestException e = true) ∧
  (∀ e w', is_configured self = true →
     requests_get_json w = (Raise e, w') → is_RequestException e = false →
     get_notifications self w = (Raise e, w')).
Proof.
  split.
  - intros w'. destruct (is_configured self) eqn:Hconf; [|by left].
    destruct (requests_get_json w) as [[payload|e] w1] eqn:Hreq.
    + rewrite (get_notifications_payload _ _ _ _ Hconf Hreq).
      destruct payload; cbn; by intros [=].
    + unfold github_service.get_notifications. rewrite Hconf, Hreq. cbn.
      destruct (is_RequestException e) eqn:He; [|by intros [=]].
      intros [= <-]. right. eauto.
  - intros e w' Hconf Hreq He. unfold github_service.get_notifications.
    rewrite Hconf, Hreq. cbn. by rewrite He.
Qed.

End github_more.

(** * Properties of the printing code of main.py *)

Section main_facts.
Import Py notification_service main.

Context (strftime : datetime → string → string).

Lemma str_app_cons c s1 s2 : String c s1 +:+ s2 = String c (s1 +:+ s2).
Proof. reflexivity. Qed.

Lemma str_app_nil_l s : "" +:+ s = s.
Proof. reflexivity. Qed.

Lemma str_length_app s1 s2 :
  String.length (s1 +:+ s2) = (String.length s1 + String.length s2)%nat.
Proof.
  induction s1 as [|c s1 IH]; [done|].
  rewrite str_app_cons. cbn. by rewrite IH.
Qed.

Lemma str_app_assoc s1 s2 s3 : (s1 +:+ s2) +:+ s3 = s1 +:+ (s2 +:+ s3).
Proof.
  induction s1 as [|c s1 IH]; [done|]. rewrite !str_app_cons. by rewrite IH.
Qed.

Lemma str_app_nonempty s c : s +:+ String c "" ≠ "".
Proof. by destruct s. Qed.

Lemma nonempty_true s : nonempty s = true ↔ s ≠ "".
Proof. unfold nonempty. rewrite negb_true_iff. apply String.eqb_neq. Qed.

Lemma nonempty_false s : nonempty s = false ↔ s = "".
Proof. unfold nonempty. rewrite negb_false_iff. apply String.eqb_eq. Qed.

Lemma slice_to_length n s : (String.length (slice_to n s) ≤ n)%nat.
Proof.
  revert s. induction n as [|n IH]; intros [|c s]; cbn; try lia.
  specialize (IH s). lia.
Qed.

Lemma split_from_nonempty cur s : Forall (λ w, w ≠ "") (split_from cur s).
Proof.
  revert cur. induction s as [|c s IH]; intros cur; cbn.
  - destruct (nonempty cur) eqn:Hcur; [|constructor].
    constructor; [by apply nonempty_true|constructor].
  - destruct (isspace c); [|apply IH].
    destruct (nonempty cur) eqn:Hcur; [|apply IH].
    constructor; [by apply nonempty_true|apply IH].
Qed.

(** *** Wrapping the title *)

(** A line is a good line for the words [W] when it is not empty and
    either fits the 32 columns or is one of the words. *)
#[local] Abbreviation good_line W :=
  (λ l : string, l ≠ "" ∧ ((String.length l ≤ 32)%nat ∨ l ∈ W)).

Lemma wrap_loop_lines (W words title_lines : list string) current_line :
  Forall (λ w, w ≠ "") words → Forall (λ w, w ∈ W) words →
  Forall (good_line W) title_lines →
  current_line = "" ∨ good_line W current_line →
  Forall (good_line W) (wrap_loop words title_lines current_line).1 ∧
  ((wrap_loop words title_lines current_line).2 = "" ∨
   good_line W (wrap_loop words title_lines current_line).2).
Proof.
  revert title_lines current_line.
  induction words as [|word words IH]; intros title_lines current_line
    Hne HW Hlines Hcur; [done|].
  apply Forall_cons in Hne as [Hword Hne].
  apply Forall_cons in HW as [HwordW HW].
  cbn [wrap_loop].
  destruct (String.length (current_line +:+ " " +:+ word) <=? 32)%nat eqn:Hfit.
  - apply IH; [done|done|done|]. right.
    apply Nat.leb_le in Hfit. rewrite !str_length_app in Hfit. cbn in Hfit.
    destruct (nonempty current_line) eqn:Hc.
    + split; [by destruct current_line|]. left.
      rewrite !str_length_app. cbn. lia.
    + apply nonempty_false in Hc as ->. rewrite str_app_nil_l.
      cbn in Hfit. split; [done|]. left. lia.
  - apply IH; [done|done| |right; split; [done|by right]].
    destruct (nonempty current_line) eqn:Hc; [|done].
    apply Forall_app. split; [done|]. constructor; [|constructor].
    destruct Hcur as [->|Hcur]; [done|done].
Qed.

Lemma wrap_title_lines title :
  Forall (λ l, l ≠ "" ∧
               ((String.length l ≤ 32)%nat ∨
                (l ∈ split title ∧ (32 < String.length l)%nat)))
         (wrap_title title).
Proof.
  unfold wrap_title.
  destruct (wrap_loop_lines (split title) (split title) [] "") as [Hl Hc].
  { apply split_from_nonempty. }
  { by apply Forall_forall. }
  { constructor. }
  { by left. }
  assert (Hweak : ∀ l, good_line (split title) l →
            l ≠ "" ∧ ((String.length l ≤ 32)%nat ∨
                      (l ∈ split title ∧ (32 < String.length l)%nat))).
  { intros l [Hne [Hfit|Hin]]; (split; [done|]); [by left|].
    destruct (decide (String.length l ≤ 32)%nat); [by left|right].
    split; [done|lia]. }
  destruct (wrap_loop (split title) [] "") as [title_lines current_line].
  cbn in Hl, Hc.
  destruct (nonempty current_line) eqn:Hcur.
  - apply Forall_app. split; [by eapply Forall_impl|].
    constructor; [|constructor]. apply Hweak.
    destruct Hc as [->|Hc]; [done|done].
  - by eapply Forall_impl.
Qed.

(** Every line of the wrapped title is non-empty and at most 32 characters
    wide, except that a word of the title longer than 32 characters gets a
    line of its own, as it is. *)
Theorem wrapped_lines_fit title :
  Forall (λ l, l ≠ "" ∧
               ((String.length l ≤ 32)%nat ∨
                (l ∈ split title ∧ (32 < String.length l)%nat)))
         (wrap_title title).
Proof. apply wrap_title_lines. Qed.

Lemma join_cons sep x y l :
  join sep (x :: y :: l) = x +:+ sep +:+ join sep (y :: l).
Proof. reflexivity. Qed.

Lemma join_merge sep l a b r :
  join sep (l ++ (a +:+ sep +:+ b) :: r) = join sep (l ++ a :: b :: r).
Proof.
  induction l as [|x l IH].
  - cbn [app]. destruct r as [|y r].
    + reflexivity.
    + rewrite !join_cons. by rewrite !str_app_assoc.
  - destruct l as [|x' l].
    + cbn [app] in *. rewrite !join_cons. by rewrite IH, join_cons.
    + cbn [app] in *. rewrite (join_cons sep x x'), IH. reflexivity.
Qed.

(** The lines closed so far together with the line being filled. *)
#[local] Abbreviation all_lines st :=
  (st.1 ++ if nonempty st.2 then [st.2] else []).

Lemma wrap_loop_join (words title_lines : list string) current_line :
  Forall (λ w, w ≠ "") words →
  join " " (all_lines (wrap_loop words title_lines current_line))
  = join " " (all_lines (title_lines, current_line) ++ words).
Proof.
  revert title_lines current_line.
  induction words as [|word words IH]; intros title_lines current_line Hne.
  - cbn [wrap_loop]. by rewrite app_nil_r.
  - apply Forall_cons in Hne as [Hword Hne]. cbn [wrap_loop].
    apply nonempty_true in Hword.
    destruct (String.length (current_line +:+ " " +:+ word) <=? 32)%nat.
    + rewrite IH by done. cbn [fst snd].
      destruct (nonempty current_line) eqn:Hc.
      * assert (nonempty (current_line +:+ " " +:+ word) = true) as ->.
        { apply nonempty_true. apply nonempty_true in Hc.
          by destruct current_line. }
        rewrite <- !app_assoc. cbn [app]. apply join_merge.
      * apply nonempty_false in Hc as ->. rewrite str_app_nil_l, Hword.
        by rewrite app_nil_r, <- app_assoc.
    + rewrite IH by done. cbn [fst snd]. rewrite Hword.
      destruct (nonempty current_line); by rewrite <- !app_assoc.
Qed.

(** Wrapping keeps the words of the title, all of them and in order: the
    lines joined by single spaces are the words joined by single spaces. *)
Theorem wrapped_title_keeps_words title :
  join " " (wrap_title title) = join " " (split title).
Proof.
  unfold wrap_title.
  pose proof (wrap_loop_join (split title) [] "" (split_from_nonempty _ _))
    as Hjoin.
  destruct (wrap_loop (split title) [] "") as [title_lines current_line].
  change (join " " (all_lines ([], "") ++ split title))
    with (join " " (split title)) in Hjoin.
  rewrite <- Hjoin. cbn [fst snd].
  destruct (nonempty current_line); [done|]. by rewrite app_nil_r.
Qed.

(** *** The formatted text *)

(** Every line of the formatted text is at most 32 characters wide, except
    the line of a title word that is itself longer than 32 characters. *)
Theorem formatted_lines_fit n :
  Forall (λ l, (String.length l ≤ 32)%nat ∨
               (l ∈ split (title n) ∧ (32 < String.length l)%nat))
         (format_lines strftime n).
Proof.
  unfold format_lines.
  repeat (apply Forall_app; split);
    try (eapply Forall_impl; [apply wrap_title_lines|]; by intros l [_ Hl]);
    repeat match goal with
           | |- context [match ?o with Some _ => _ | None => _ end] =>
               destruct o
           end;
    repeat match goal with
           | |- context [if nonempty ?r then _ else _] => destruct (nonempty r)
           end;
    first [ constructor;
            [left; first [apply slice_to_length | (vm_compute; lia)]
            |constructor]
          | constructor ].
Qed.

(** *** Grouping by source *)

Lemma dict_contains_spec k (d : list (string * list notification)) :
  dict_contains k d = true ↔ k ∈ fst <$> d.
Proof.
  unfold dict_contains. induction d as [|[k' v] d IH]; cbn.
  - split; [done|by intros ?%elem_of_nil].
  - rewrite orb_true_iff, IH, elem_of_cons, String.eqb_eq. done.
Qed.

Lemma dict_append_map k n (g : string → list notification) (ks : list string) :
  NoDup ks →
  dict_append k n ((λ k', (k', g k')) <$> ks)
  = (λ k', (k', g k' ++ if decide (k' = k) then [n] else [])) <$> ks.
Proof.
  induction 1 as [|k1 ks Hk1 Hnd IH]; [done|]. cbn.
  destruct (String.eqb_spec k k1) as [->|Hne].
  - rewrite decide_True by done. f_equal.
    apply list_fmap_ext. intros i k' Hk'.
    rewrite decide_False, app_nil_r; [done|].
    intros ->. apply Hk1. by eapply list_elem_of_lookup_2.
  - rewrite decide_False, app_nil_r by done. by rewrite IH.
Qed.

Lemma dict_append_fresh k n v (d : list (string * list notification)) :
  k ∉ fst <$> d → dict_append k n (d ++ [(k, v)]) = d ++ [(k, v ++ [n])].
Proof.
  induction d as [|[k' v'] d IH]; cbn.
  - intros _. by rewrite String.eqb_refl.
  - rewrite not_elem_of_cons. intros [Hne Hk].
    destruct (String.eqb_spec k k') as [->|_]; [done|]. by rewrite IH.
Qed.

Lemma elem_of_first_seen x l : x ∈ first_seen l ↔ x ∈ l.
Proof.
  induction l as [|y l IH]; [done|]. cbn.
  rewrite !elem_of_cons, list_elem_of_filter, IH.
  destruct (decide (x = y)); naive_solver.
Qed.

Lemma NoDup_first_seen l : NoDup (first_seen l).
Proof.
  induction l as [|y l IH]; cbn; [constructor|].
  constructor; [|by apply NoDup_filter].
  rewrite list_elem_of_filter. naive_solver.
Qed.

Lemma first_seen_snoc l x :
  first_seen (l ++ [x])
  = first_seen l ++ (if decide (x ∈ l) then [] else [x]).
Proof.
  induction l as [|y l IH].
  - cbn. rewrite decide_False by apply not_elem_of_nil. done.
  - cbn [app first_seen]. rewrite IH, filter_app. cbn. f_equal.
    destruct (decide (x ∈ l)) as [Hin|Hin].
    + rewrite decide_True by (by right). by rewrite filter_nil.
    + destruct (decide (x = y)) as [->|Hne].
      * rewrite decide_True by left. rewrite filter_cons_False; [done|].
        by intros ?.
      * rewrite decide_False by (rewrite elem_of_cons; naive_solver).
        by rewrite filter_cons_True.
Qed.

Lemma from_source_snoc k (ns : list notification) n :
  from_source k (ns ++ [n])
  = from_source k ns ++ (if decide (source n = k) then [n] else []).
Proof.
  unfold from_source. by rewrite filter_app.
Qed.

Lemma from_source_absent k (ns : list notification) :
  k ∉ source <$> ns → from_source k ns = [].
Proof.
  intros Hk. unfold from_source.
  induction ns as [|n ns IH]; [done|].
  rewrite fmap_cons, not_elem_of_cons in Hk. destruct Hk as [Hn Hk].
  rewrite filter_cons_False by done. by apply IH.
Qed.

Lemma group_by_source_eq (ns : list notification) :
  group_by_source ns
  = (λ k, (k, from_source k ns)) <$> first_seen (source <$> ns).
Proof.
  unfold group_by_source. induction ns as [|n ns IH] using rev_ind; [done|].
  rewrite fold_left_app. cbn [fold_left]. rewrite IH. clear IH.
  rewrite fmap_app. cbn [fmap list_fmap]. rewrite first_seen_snoc.
  unfold group_step.
  destruct (dict_contains (source n)
              ((λ k, (k, from_source k ns)) <$> first_seen (source <$> ns)))
    eqn:Hc.
  - apply dict_contains_spec in Hc.
    rewrite <- list_fmap_compose in Hc. cbn in Hc.
    rewrite list_fmap_id, elem_of_first_seen in Hc.
    rewrite decide_True, app_nil_r by done.
    rewrite dict_append_map by apply NoDup_first_seen.
    apply list_fmap_ext. intros i k _. f_equal.
    rewrite from_source_snoc. by destruct (decide (k = source n)) as [->|?];
      [rewrite decide_True|rewrite decide_False].
  - assert (Hk : source n ∉ source <$> ns).
    { intros Hin. assert (dict_contains (source n)
        ((λ k, (k, from_source k ns)) <$> first_seen (source <$> ns)) = true);
        [|congruence].
      apply dict_contains_spec. rewrite <- list_fmap_compose. cbn.
      by rewrite list_fmap_id, elem_of_first_seen. }
    rewrite decide_False by done.
    rewrite dict_append_fresh.
    2:{ rewrite <- list_fmap_compose. cbn.
        by rewrite list_fmap_id, elem_of_first_seen. }
    rewrite fmap_app. cbn [fmap list_fmap].
    rewrite from_source_snoc, (from_source_absent _ _ Hk), decide_True by done.
    f_equal. apply list_fmap_ext. intros i k Hi. f_equal.
    rewrite from_source_snoc, decide_False, app_nil_r; [done|].
    intros Heq. apply Hk. rewrite Heq. apply elem_of_first_seen.
    by eapply list_elem_of_lookup_2.
Qed.

(** The grouping of [print_notifications_to_printer] makes one group per
    source, in the order in which the sources first appear; a group holds
    the notifications of its source, all of them, in the order of the
    list. *)
Theorem groups_are_the_sources_in_order_of_appearance
    (ns : list notification) :
  group_by_source ns
  = (λ k, (k, from_source k ns)) <$> first_seen (source <$> ns).
Proof. apply group_by_source_eq. Qed.

Lemma dict_append_flat k n (d : list (string * list notification)) :
  k ∈ fst <$> d →
  concat (snd <$> dict_append k n d) ≡ₚ concat (snd <$> d) ++ [n].
Proof.
  induction d as [|[k' v] d IH]; cbn.
  - by intros ?%elem_of_nil.
  - intros Hin. destruct (String.eqb_spec k k') as [->|Hne].
    + cbn. rewrite <- !app_assoc. apply Permutation_app_head.
      apply Permutation_app_comm.
    + apply elem_of_cons in Hin as [?|Hin]; [done|].
      cbn. rewrite IH by done. by rewrite app_assoc.
Qed.

Lemma group_step_flat (d : list (string * list notification)) n :
  concat (snd <$> group_step d n) ≡ₚ concat (snd <$> d) ++ [n].
Proof.
  unfold group_step. destruct (dict_contains (source n) d) eqn:Hc.
  - apply dict_append_flat. by apply dict_contains_spec.
  - rewrite dict_append_fresh.
    + rewrite !fmap_app, !concat_app. cbn. by rewrite ?app_nil_r.
    + intros Hin%dict_contains_spec. congruence.
Qed.

Lemma group_fold_flat (ns : list notification) d :
  concat (snd <$> fold_left group_step ns d) ≡ₚ concat (snd <$> d) ++ ns.
Proof.
  revert d. induction ns as [|n ns IH]; intros d; cbn.
  - by rewrite app_nil_r.
  - rewrite IH, group_step_flat, <- app_assoc. done.
Qed.

Lemma printed_texts_app calls calls' :
  printed_texts (calls ++ calls') = printed_texts calls ++ printed_texts calls'.
Proof. apply omap_app. Qed.

Lemma printed_texts_texts {A} (f : A → string) (l : list A) :
  printed_texts ((λ x, print_text (f x)) <$> l) = f <$> l.
Proof.
  induction l as [|x l IH]; [done|].
  rewrite !fmap_cons. unfold printed_texts in *.
  cbn [omap list_omap]. by rewrite IH.
Qed.

Lemma printed_texts_group kv :
  printed_texts (print_group strftime kv)
  = format_notification_for_print strftime <$> kv.2.
Proof.
  unfold print_group. rewrite printed_texts_app.
  by rewrite (printed_texts_texts (format_notification_for_print strftime)).
Qed.

Lemma printed_texts_groups (d : list (string * list notification)) :
  printed_texts (concat (print_group strftime <$> d))
  = format_notification_for_print strftime <$> concat (snd <$> d).
Proof.
  induction d as [|kv d IH]; [done|].
  cbn [fmap list_fmap concat]. rewrite printed_texts_app, fmap_app.
  by rewrite printed_texts_group, IH.
Qed.

(** [print_notifications_to_printer] on an empty list returns [True]
    without a call; otherwise it enters and exits the printer exactly once,
    around everything else.  With a printer that does not connect it
    returns [False] and prints nothing; with one that connects it returns
    [True] and sends the formatted text of every notification exactly once:
    the texts sent are those of the groups in order, a rearrangement of the
    texts of the list. *)
Theorem every_notification_is_printed_once is_connected now
    (ns : list notification) :
  (ns = [] →
   print_notifications_to_printer strftime is_connected now ns = (true, [])) ∧
  (ns ≠ [] → is_connected = false →
   print_notifications_to_printer strftime is_connected now ns
   = (false, [enter; exit])) ∧
  (ns ≠ [] → is_connected = true →
   ∃ body,
     print_notifications_to_printer strftime is_connected now ns
     = (true, enter :: body ++ [exit]) ∧
     (enter ∉ body) ∧ (exit ∉ body) ∧
     printed_texts body
     = format_notification_for_print strftime
         <$> concat (snd <$> group_by_source ns) ∧
     printed_texts body ≡ₚ format_notification_for_print strftime <$> ns).
Proof.
  split; [by intros ->|]. split.
  - intros Hne ->. by destruct ns.
  - intros Hne ->. destruct ns as [|n ns]; [done|].
    cbn [print_notifications_to_printer negb].
    set (services := group_by_source (n :: ns)).
    set (header := [print_line (mul "=" 32); print_line "NOTIFICATIONS";
                    print_line (mul "=" 32);
                    print_line ("Total: " +:+ str_of_nat (length (n :: ns)));
                    print_line ("Services: " +:+ join ", " services.*1);
                    print_line ("Time: " +:+ strftime now "%Y-%m-%d %H:%M");
                    print_line ""]).
    set (footer := [print_line (mul "=" 32);
                    print_line "END OF NOTIFICATIONS";
                    print_line (mul "=" 32); feed_lines 3]).
    assert (Hheader : printed_texts header = [] ∧
                      (enter ∉ header) ∧ (exit ∉ header)).
    { split; [done|]. unfold header.
      split; rewrite !not_elem_of_cons; repeat split;
        first [done | apply not_elem_of_nil]. }
    assert (Hfooter : printed_texts footer = [] ∧
                      (enter ∉ footer) ∧ (exit ∉ footer)).
    { split; [done|]. unfold footer.
      split; rewrite !not_elem_of_cons; repeat split;
        first [done | apply not_elem_of_nil]. }
    clearbody header footer.
    destruct Hheader as (Hh1 & Hh2 & Hh3). destruct Hfooter as (Hf1 & Hf2 & Hf3).
    assert (Hgroup : ∀ c, c ∈ concat (print_group strftime <$> services) →
              c ≠ enter ∧ c ≠ exit).
    { intros c Hc. clearbody services.
      induction services as [|kv d IH].
      - by apply elem_of_nil in Hc.
      - cbn [fmap list_fmap concat] in Hc. apply elem_of_app in Hc as [Hc|Hc];
          [|by apply IH].
        unfold print_group in Hc.
        rewrite elem_of_app, !elem_of_cons, elem_of_nil in Hc.
        destruct Hc as [[->|[->|[->|[]]]]|Hc]; try done.
        apply list_elem_of_fmap in Hc as (? & -> & _). done. }
    exists (header ++ concat (print_group strftime <$> services) ++ footer).
    split; [|split; [|split; [|split]]].
    + cbn [app]. by rewrite <- !app_assoc.
    + rewrite !elem_of_app.
      intros [Hc|[Hc|Hc]]; [done|by apply Hgroup in Hc as [? _]|done].
    + rewrite !elem_of_app.
      intros [Hc|[Hc|Hc]]; [done|by apply Hgroup in Hc as [_ ?]|done].
    + rewrite !printed_texts_app, printed_texts_groups, Hh1, Hf1.
      by rewrite app_nil_r.
    + rewrite !printed_texts_app, printed_texts_groups, Hh1, Hf1.
      rewrite app_nil_r. apply fmap_Permutation.
      unfold services, group_by_source. by rewrite group_fold_flat.
Qed.

End main_facts.

(** * Properties of the polling loop of main.py *)

Section polling_facts.
Import Py notification_service main.
Context {World : Type}.
Context (deliver : list notification → World → outcome bool * World).
Context (time_sleep : World → outcome unit * World).

#[local] Abbreviation service := (NotificationService World).
#[local] Abbreviation fetched := (outcome (option (list notification))).
#[local] Abbreviation key := (λ n : notification, (source n, id n)).

(** Everything in [old] is recorded under its source, where there is a set
    for that source. *)
#[local] Abbreviation recorded old σ :=
  (∀ x : notification, x ∈ old →
   ∀ a : gset string,
     seen_notifications (self σ) !! source x = Some a → id x ∈ a).





Section printer_record.

(** What the printer has been handed so far, as the world keeps it: every
    call of [print_notifications_to_printer] puts its argument at the end
    of the record, whether it then prints, fails or raises, and sleeping
    adds nothing. *)
Variable handed : World → list (list notification).
Hypothesis deliver_records :
  ∀ ns w, handed (deliver ns w).2 = handed w ++ [ns].
Hypothesis sleep_hands_nothing : ∀ w, handed (time_sleep w).2 = handed w.

(** No fetch of a registered provider writes to the record. *)
#[local] Abbreviation quiet σ :=
  (∀ (s : service) w,
     s ∈ services (self σ) → handed (get_notifications s w).2 = handed w).

(** The calls of the printer in a pass that found [new]: none when [new]
    is empty. *)
#[local] Abbreviation calls new :=
  (match new with [] => [] | _ :: _ => [new] end).








End printer_record.

Lemma poll_loop_spec fuel (σ σ' : state World) e :
  poll_loop deliver time_sleep fuel σ = Some (e, σ') ↔
  ∃ k (batches : list (list notification)) σk,
    (k < fuel)%nat ∧
    poll_cycles deliver time_sleep k σ = (Return batches, σk) ∧
    poll_cycle deliver time_sleep σk = (Raise e, σ').
Proof.
  revert σ. induction fuel as [|fuel IH]; intros σ.
  - cbn. split; [done|]. intros (k & _ & _ & Hk & _). lia.
  - cbn [poll_loop].
    destruct (poll_cycle deliver time_sleep σ) as [[new|e0] σa] eqn:Hcycle.
    + rewrite IH. split.
      * intros (k & batches & σk & Hk & Hcycles & Hlast).
        exists (S k), (new :: batches), σk. split; [lia|]. split; [|done].
        cbn [poll_cycles]. rewrite (bind_Return _ _ _ _ _ Hcycle).
        by rewrite (bind_Return _ _ _ _ _ Hcycles).
      * intros ([|k] & batches & σk & Hk & Hcycles & Hlast).
        { injection Hcycles as _ <-. congruence. }
        cbn [poll_cycles] in Hcycles.
        rewrite (bind_Return _ _ _ _ _ Hcycle) in Hcycles.
        unfold mbind, M_bind, mret, M_ret in Hcycles.
        destruct (poll_cycles deliver time_sleep k σa) as [[rest|e1] σb]
          eqn:Hrest; [|done].
        injection Hcycles as _ <-.
        exists k, rest, σb. split; [lia|done].
    + split.
      * intros [= <- <-]. exists 0%nat, [], σ. split; [lia|done].
      * intros ([|k] & batches & σk & Hk & Hcycles & Hlast).
        { injection Hcycles as _ <-. congruence. }
        cbn [poll_cycles] in Hcycles.
        by rewrite (bind_Raise _ _ _ _ _ Hcycle) in Hcycles.
Qed.

(** The three ways in which [poll_notifications] ends, and no other: at
    once and normally when no provider is registered; with the exception
    of the initial check, whatever it is, [KeyboardInterrupt] included,
    since that check runs before the [try]; or with the first exception of
    a pass of the loop, which is turned into a normal return when it is
    [KeyboardInterrupt] and raised otherwise.  As long as every pass
    returns, so does the loop go on. *)
Theorem poll_notifications_ends fuel (σ σ' : state World) (r : outcome unit) :
  poll_notifications deliver time_sleep fuel σ = Some (r, σ') ↔
  (services (self σ) = [] ∧ r = Return () ∧ σ' = σ) ∨
  (services (self σ) ≠ [] ∧
   ∃ e, initial_check σ = (Raise e, σ') ∧ r = Raise e) ∨
  (services (self σ) ≠ [] ∧
   ∃ σ1 k (batches : list (list notification)) σk e,
     (k < fuel)%nat ∧
     initial_check σ = (Return (), σ1) ∧
     poll_cycles deliver time_sleep k σ1 = (Return batches, σk) ∧
     poll_cycle deliver time_sleep σk = (Raise e, σ') ∧
     r = match e with KeyboardInterrupt => Return () | _ => Raise e end).
Proof.
  unfold poll_notifications.
  destruct (services (self σ)) as [|s svcs] eqn:Hsvcs.
  { split.
    - intros [= <- <-]. by left.
    - intros [(_ & -> & ->)|[[? _]|[? _]]]; done. }
  destruct (initial_check σ) as [[[]|e0] σ1] eqn:Hcheck.
  - destruct (poll_loop deliver time_sleep fuel σ1) as [[e σ2]|] eqn:Hloop.
    + split.
      * intros [= <- <-]. right. right. split; [done|].
        apply poll_loop_spec in Hloop as (k & batches & σk & Hk & Hc & Hl).
        exists σ1, k, batches, σk, e. by repeat split.
      * intros [[? _]|[(_ & e' & ? & _)|
          (_ & σ1' & k & batches & σk & e' & Hk & [= <-] & Hc & Hl & ->)]];
          try done.
        assert (Hloop' : poll_loop deliver time_sleep fuel σ1 = Some (e', σ'))
          by (apply poll_loop_spec; by exists k, batches, σk).
        rewrite Hloop in Hloop'. by injection Hloop' as -> ->.
    + split; [done|].
      intros [[? _]|[(_ & e' & ? & _)|
        (_ & σ1' & k & batches & σk & e' & Hk & [= <-] & Hc & Hl & ->)]];
        try done.
      assert (Hloop' : poll_loop deliver time_sleep fuel σ1 = Some (e', σ'))
        by (apply poll_loop_spec; by exists k, batches, σk).
      congruence.
  - split.
    + intros [= <- <-]. right. left. split; [done|]. by exists e0.
    + intros [[? _]|[(_ & e' & [= <- <-] & ->)|(_ & σ1' & ? & ? & ? & ? & ? & ? & _)]];
        done.
Qed.

End polling_facts.

(** * The further properties, run *)

Section more_examples.
Import Py github_service notification_service main examples.

Lemma get_all_notifications_concatenates_witness :
  get_all_notifications
    (registered [X; failing "F" (RequestException "timeout"); Y])
  = (Return [note "X" "1"; note "Y" "2"],
     set_world (registered [X; failing "F" (RequestException "timeout"); Y]) 3).
Proof.
  rewrite get_all_notifications_concatenates by repeat constructor.
  reflexivity.
Defined.

Lemma fetching_raises_only_what_a_fetch_raised_witness :
  is_Exception KeyboardInterrupt = false ∧
  ∃ s w, s ∈ [X; failing "F" KeyboardInterrupt; Y] ∧
         (notification_service.get_notifications s w).1
         = Raise KeyboardInterrupt.
Proof.
  apply (fetching_raises_only_what_a_fetch_raised
           (registered [X; failing "F" KeyboardInterrupt; Y])
           KeyboardInterrupt
           (set_world (registered [X; failing "F" KeyboardInterrupt; Y]) 2)).
  left. reflexivity.
Defined.

Lemma registry_invariant_witness :
  Forall (λ s, notification_service.is_configured s = true)
    (services (self (registered [X; Y]))) ∧
  dom (seen_notifications (self (registered [X; Y])))
  = list_to_set (service_name <$> services (self (registered [X; Y]))).
Proof.
  apply registry_invariant.
  exact (reachable_add_service Y (registered [X])
           (reachable_add_service X fresh_state reachable_init)).
Defined.

Lemma seen_after_get_new_witness :
  seen_notifications (self (get_new_notifications (registered [D; Y1])).2) !! "D"
  = Some (∅ ∪ list_to_set ["1"; "1"; "2"]).
Proof.
  rewrite (seen_after_get_new (registered [D; Y1]) "D")
    by repeat constructor.
  reflexivity.
Defined.

Lemma mark_depends_on_pairs_only_witness :
  mark_notifications_as_seen [note "X" "1"; renote "X" "1"; note "Y" "2"]
    (registered [X; Y])
  = mark_notifications_as_seen [note "Y" "2"; note "X" "1"] (registered [X; Y]).
Proof.
  apply mark_depends_on_pairs_only. intros p.
  cbn. rewrite !elem_of_cons, elem_of_nil. naive_solver.
Defined.

Lemma new_is_a_subsequence_of_all_witness :
  ∃ new all,
    (get_new_notifications (registered [D; Y1])).1 = Return new ∧
    (get_all_notifications (registered [D; Y1])).1 = Return all ∧
    sublist new all.
Proof.
  apply new_is_a_subsequence_of_all. repeat constructor.
Defined.

Lemma first_poll_returns_everything_witness :
  (get_new_notifications (registered [X1; Y1])).1
  = Return [note "X" "1"; note "Y" "1"].
Proof.
  destruct (first_poll_returns_everything (registered [X1; Y1]))
    as [Hnew Hall].
  - exact (reachable_add_service Y1 (registered [X1])
             (reachable_add_service X1 fresh_state reachable_init)).
  - repeat constructor.
  - intros k a Hk.
    assert (Hall : map_Forall (λ _ (a : gset string), a = ∅)
                     (seen_notifications (self (registered [X1; Y1]))))
      by (apply (bool_decide_unpack _); by vm_compute).
    exact (Hall k a Hk).
  - intros k. unfold batches_under.
    set (trace := polled _ _). vm_compute in trace. subst trace. cbn.
    repeat case_decide; subst; try done; cbn; repeat constructor;
      apply not_elem_of_nil.
  - rewrite Hnew, Hall. reflexivity.
Defined.

Lemma next_poll_returns_only_new_ids_witness :
  (get_new_body growing []
     (set_world (get_new_body growing [] (registered [growing])).2 2)).1
  = Return [note "G" "3"].
Proof.
  destruct (next_poll_returns_only_new_ids growing (registered [growing])
              [note "G" "1"; note "G" "2"] 1 ∅ []
              (set_world (get_new_body growing [] (registered [growing])).2 2)
              [note "G" "1"; note "G" "2"; note "G" "3"] 3 []
              eq_refl eq_refl eq_refl eq_refl)
    as (fresh & Heq & _ & Hextra).
  rewrite Heq. f_equal. apply (Hextra [note "G" "3"] eq_refl).
  - repeat constructor. apply not_elem_of_nil.
  - intros n ->%list_elem_of_singleton. split; [apply not_elem_of_empty|].
    cbn. rewrite !not_elem_of_cons. repeat split; try done.
    apply not_elem_of_nil.
Defined.

Lemma blank_token_makes_no_request_witness :
  github_service.get_notifications refused no_parse clock blank_token 0
  = (Return None, 0).
Proof.
  apply blank_token_makes_no_request. right. eexists. split; [reflexivity|].
  repeat constructor.
Defined.

Lemma configured_iff_token_has_a_visible_character_witness :
  github_service.is_configured nbsp_token = false ∧
  github_service.is_configured with_token = true.
Proof.
  split.
  - apply not_true_is_false.
    intros (t & [= <-] & Hex)%configured_iff_token_has_a_visible_character.
    cbn in Hex.
    repeat (apply Exists_cons in Hex as [Hc|Hex]; [done|]).
    by apply Exists_nil in Hex.
  - apply configured_iff_token_has_a_visible_character.
    exists "ghp_0123". split; [done|]. by apply Exists_cons_hd.
Defined.


Lemma converted_fields_witness :
  ∃ n, github_service.convert_body no_parse clock with_token 5
         (JObj [("id", JStr "9")]) = Return n ∧
       title n = JStr "No Title" ∧ repository n = Some (JStr "Unknown Repo") ∧
       reason n = Some "unknown" ∧ type n = "Unknown" ∧
       timestamp n = clock 5.
Proof.
  eexists. split; [reflexivity|].
  destruct (converted_fields no_parse clock with_token 5 [("id", JStr "9")] _
              eq_refl)
    as (_ & Ht & _ & Hrepo & _ & _ & (r & Hr & Hty & ->) & Hts).
  rewrite Ht, Hrepo, Hr, Hty, Hts. repeat split.
Defined.

Lemma one_notification_per_convertible_item_witness :
  ∃ ns,
    github_service.get_notifications
      (answer (JArr [raw_item "1" "mention"; JStr "oops"; no_subject;
                     raw_item "2" "custom_reason"]))
      no_parse clock with_token 0
    = (Return (Some ns), 1) ∧
    raw_data <$> ns
    = [Some (raw_item "1" "mention"); Some (raw_item "2" "custom_reason")] ∧
    Forall (λ n, source n = "GitHub") ns.
Proof.
  apply (one_notification_per_convertible_item
           (answer (JArr [raw_item "1" "mention"; JStr "oops"; no_subject;
                          raw_item "2" "custom_reason"]))
           no_parse clock with_token 0 1
           [raw_item "1" "mention"; JStr "oops"; no_subject;
            raw_item "2" "custom_reason"] eq_refl eq_refl).
Defined.

Lemma payload_that_is_no_list_witness :
  github_service.get_notifications
    (answer (JObj [("message", JStr "Bad credentials")]))
    no_parse clock with_token 0
  = (Return (Some []), 1) ∧
  ∃ msg, github_service.get_notifications (answer JNull)
           no_parse clock with_token 0
         = (Raise (TypeError msg), 1).
Proof.
  split.
  - apply (payload_that_is_no_list
             (answer (JObj [("message", JStr "Bad credentials")]))
             no_parse clock with_token 0 1
             (JObj [("message", JStr "Bad credentials")]) eq_refl eq_refl).
  - apply (payload_that_is_no_list (answer JNull)
             no_parse clock with_token 0 1 JNull eq_refl eq_refl).
Defined.

Lemma None_means_no_token_or_request_error_witness :
  (github_service.is_configured with_token = false ∨
   ∃ e, refused 0 = (Raise e, 1) ∧ is_RequestException e = true) ∧
  github_service.get_notifications
    (λ w, (Raise (ValueError "bad json"), S w)) no_parse clock with_token 0
  = (Raise (ValueError "bad json"), 1).
Proof.
  split.
  - destruct (None_means_no_token_or_request_error refused no_parse clock
                with_token 0) as [Hnone _].
    apply Hnone. reflexivity.
  - destruct (None_means_no_token_or_request_error
                (λ w, (Raise (ValueError "bad json"), S w)) no_parse clock
                with_token 0) as [_ Hother].
    by apply Hother.
Defined.

Lemma every_notification_is_printed_once_witness :
  ∃ body,
    print_notifications_to_printer show_time true (clock 0)
      [titled "X" "1" "one"; titled "Y" "2" "two"; titled "X" "3" "three"]
    = (true, enter :: body ++ [exit]) ∧
    printed_texts body
    = format_notification_for_print show_time
        <$> [titled "X" "1" "one"; titled "X" "3" "three"; titled "Y" "2" "two"].
Proof.
  destruct (every_notification_is_printed_once show_time true (clock 0)
              [titled "X" "1" "one"; titled "Y" "2" "two";
               titled "X" "3" "three"])
    as (_ & _ & Hprint).
  destruct Hprint as (body & Heq & _ & _ & Htexts & _); [done|done|].
  exists body. split; [exact Heq|]. rewrite Htexts. reflexivity.
Defined.


Lemma poll_notifications_ends_witness :
  ∃ σ', poll_notifications broken_printer a_minute 5 (registered [interrupted])
        = Some (Return (), σ') ∧
        seen_notifications (self σ') !! "I" = Some {["1"]}.
Proof.
  eexists. split.
  - apply poll_notifications_ends. right. right. split; [done|].
    exists (initial_check (registered [interrupted])).2, 1%nat, [[]],
      (poll_cycle broken_printer a_minute
         (initial_check (registered [interrupted])).2).2,
      KeyboardInterrupt.
    split; [lia|]. repeat split; reflexivity.
  - reflexivity.
Defined.

End more_examples.
